(** * An in-process event bus: registry, registration and fan-out

    Shallow embedding of [src/event_bus/bus.py].  The two classes of the
    module, [TypedEventBus] and [UntypedEventBus], are embedded one method at
    a time; what Python provides underneath them (a dict of set objects, the
    [for] loop over a set, calling a handler that may call back into the bus)
    is embedded once and shared. *)

From stdpp Require Import gmap strings list fin_maps.

(** ** Python values *)

(** A handler is a Python callable.  The registry only ever hashes and
    compares it, and functions, closures and bound methods hash and compare
    by identity, so a handler is represented by its identity; what it does
    when called is looked up in a table (see [prog] below). *)
Abbreviation hid := positive.

(** Identity of a set object.  A set stored in the registry can also be held
    by the [for] loop of a pending [emit], so it matters whether the registry
    still refers to the same object or to a newer one. *)
Abbreviation oid := positive.

(** The exceptions that can travel through the bus: [KeyError] from a dict
    subscript or from [set.remove], [RuntimeError] from iterating over a set
    whose size changed, and whatever a handler raises. *)
Inductive exn : Type :=
  | KeyError
  | RuntimeError
  | UserError (tag : string).

#[global] Instance exn_eq_dec : EqDecision exn.
Proof. solve_decision. Defined.

Section Python.
Context {payload : Type}.

(** The arguments a handler is called with: [event_handler(data)] in the
    untyped bus, [event_handler(event_name, data)] in the typed one. *)
Inductive args : Type :=
  | Args1 (data : payload)
  | Args2 (event_name : string) (data : payload).

(** A call into the bus made by a handler. *)
Inductive call : Type :=
  | CRegister (event_name : string) (handler : hid)
  | CUnregister (event_name : string) (handler : hid)
  | CEmit (event_name : string) (data : payload).

(** What an observer of the handlers sees: a handler is called, it calls
    the bus, it returns. *)
Inductive obs : Type :=
  | Invoked (h : hid) (a : args)
  | Called (c : call)
  | Returned (h : hid).

(** The attributes of a bus object, with two ghost fields.
    [registry] is [self.registry]: a dict from event name to a set object,
    given as the object's identity and its current members.
    [event_handlers] is the attribute that [TypedEventBus.__init__] creates
    and nothing uses; an [UntypedEventBus] has no such attribute.
    [next_oid] is the identity the next set object will get and [log]
    records handler calls. *)
Record state : Type := State {
  registry : gmap string (oid * gset hid);
  event_handlers : option (gmap string (gset hid));
  next_oid : oid;
  log : list obs;
}.

Definition set_registry (r : gmap string (oid * gset hid)) (st : state) : state :=
  {| registry := r; event_handlers := event_handlers st;
     next_oid := next_oid st; log := log st |}.

Definition add_log (o : obs) (st : state) : state :=
  {| registry := registry st; event_handlers := event_handlers st;
     next_oid := next_oid st; log := log st ++ [o] |}.

(** The handlers currently registered for an event name. *)
Definition handlers_of (st : state) (event_name : string) : gset hid :=
  match registry st !! event_name with
  | Some (_, s) => s
  | None => ∅
  end.

(** ** Statements that may raise *)

(** A statement ends normally, raises, or needs a deeper call stack than
    the model was given. *)
Inductive result : Type :=
  | Ok (st : state)
  | Exn (x : exn) (st : state)
  | OutOfFuel.

Definition M : Type := state → result.

Definition seq (m1 m2 : M) : M :=
  fun st => match m1 st with
            | Ok st' => m2 st'
            | r => r
            end.

(** [try: m except x: k (Some x) else: k None] *)
Definition try_catch (m : M) (k : option exn → M) : M :=
  fun st => match m st with
            | Ok st' => k None st'
            | Exn x st' => k (Some x) st'
            | OutOfFuel => OutOfFuel
            end.

(** ** The dict of sets *)

(** Truth value of [self.registry.get(event_name, None)]: [None] and the
    empty set are false. *)
Definition truthy (v : option (oid * gset hid)) : bool :=
  match v with
  | Some (_, s) => bool_decide (s ≠ ∅)
  | None => false
  end.

(** [self.registry[event_name] = {handler}]: a new set object. *)
Definition setitem_new (event_name : string) (handler : hid) : M :=
  fun st =>
    Ok {| registry := <[event_name := (next_oid st, {[handler]})]> (registry st);
          event_handlers := event_handlers st;
          next_oid := Pos.succ (next_oid st);
          log := log st |}.

(** [self.registry[event_name].add(handler)]: the same object, updated. *)
Definition getitem_add (event_name : string) (handler : hid) : M :=
  fun st =>
    match registry st !! event_name with
    | Some (o, s) =>
        Ok (set_registry (<[event_name := (o, {[handler]} ∪ s)]> (registry st)) st)
    | None => Exn KeyError st
    end.

(** [self.registry[event_name].remove(handler)] *)
Definition getitem_remove (event_name : string) (handler : hid) : M :=
  fun st =>
    match registry st !! event_name with
    | Some (o, s) =>
        if decide (handler ∈ s)
        then Ok (set_registry (<[event_name := (o, s ∖ {[handler]})]> (registry st)) st)
        else Exn KeyError st
    | None => Exn KeyError st
    end.

(** [if len(self.registry[event_name]) == 0: del self.registry[event_name]] *)
Definition del_if_empty (event_name : string) : M :=
  fun st =>
    match registry st !! event_name with
    | Some (_, s) =>
        if decide (size s = 0)
        then Ok (set_registry (delete event_name (registry st)) st)
        else Ok st
    | None => Exn KeyError st
    end.

(** ** Iterating over a set object *)

(** Number of members of the set object [o] that [emit] found under
    [event_name].  The registry drops a set object only when it is empty
    ([del] after the last [remove], or the assignment of a new set over a
    false value), and nothing else can then add to it: an object the
    registry no longer holds has no members. *)
Definition live_size (event_name : string) (o : oid) (st : state) : nat :=
  match registry st !! event_name with
  | Some (o', s) => if decide (o' = o) then size s else 0
  | None => 0
  end.

(** The entries of that set object as they are now, in the order in which
    a loop over it meets them. *)
Definition live_entries (order : gset hid → list hid) (event_name : string)
    (o : oid) (st : state) : list hid :=
  match registry st !! event_name with
  | Some (o', s) => if decide (o' = o) then order s else []
  | None => []
  end.

(** [for event_handler in event_handlers: call event_handler] over the set
    object [o], which had [n] members when the loop started.  The iterator
    holds a position in the set object, not a copy of its members: every
    step, the one that finds the set exhausted too, first raises
    [RuntimeError] when the set has not the size it started with, and then
    takes the entry at its position in the set as it is at that moment.  So
    a handler that an earlier handler has removed is not called, also when
    another registration has restored the size.  [pos] counts the entries
    passed.  [left] is there for the recursion: a loop starts with as many
    steps as the set has entries, and when every set has one entry for each
    member this bound is reached exactly when the position is past the last
    entry.  [order] gives the order of the entries of a set from its
    members; in CPython the order comes from the hash table, which also
    keeps traces of the members removed and is rebuilt when it fills up.
    After a change that restored the size a loop can therefore miss a
    member or meet one twice, in CPython as here; which members it does
    meet is modelled only up to the choice of [order].  The theorems below
    do not say which handlers an emission calls after such a change, only
    that it does not call a handler that has been removed. *)
Fixpoint for_each (order : gset hid → list hid) (call : hid → M)
    (event_name : string) (o : oid) (n pos left : nat) : M :=
  fun st =>
    if decide (live_size event_name o st = n)
    then match left with
         | 0 => Ok st
         | S left' =>
             match live_entries order event_name o st !! pos with
             | Some h =>
                 seq (call h) (for_each order call event_name o n (S pos) left') st
             | None => Ok st
             end
         end
    else Exn RuntimeError st.

(** ** Handlers *)

(** The body of a handler, as far as the bus is concerned: it returns, it
    raises, or it calls the bus and goes on according to how the call ended
    ([None]: normally; [Some x]: with exception [x], which the handler may
    handle or raise again). *)
Inductive prog : Type :=
  | Done
  | Throw (x : exn)
  | Bus (c : call) (k : option exn → prog).

(** A handler that does not handle the exception of its call. *)
Definition reraise (p : prog) (r : option exn) : prog :=
  match r with
  | None => p
  | Some x => Throw x
  end.

Section Exec.
Variable bus_register bus_unregister : string → hid → M.
Variable bus_emit : string → payload → M.

(** The handler calls the bus; the call is noted first. *)
Definition do_call (c : call) : M :=
  fun st =>
    let st' := add_log (Called c) st in
    match c with
    | CRegister e h => bus_register e h st'
    | CUnregister e h => bus_unregister e h st'
    | CEmit e d => bus_emit e d st'
    end.

Fixpoint exec (p : prog) : M :=
  match p with
  | Done => Ok
  | Throw x => Exn x
  | Bus c k => try_catch (do_call c) (fun r => exec (k r))
  end.

(** Calling handler [h] with arguments [a], its body being [p]. *)
Definition invoke (h : hid) (a : args) (p : prog) : M :=
  fun st => match exec p (add_log (Invoked h a) st) with
            | Ok st' => Ok (add_log (Returned h) st')
            | r => r
            end.
End Exec.

(** What a caller of the bus can do with it. *)
Inductive op : Type :=
  | Register (event_name : string) (handler : hid)
  | Unregister (event_name : string) (handler : hid)
  | Emit (event_name : string) (data : payload).
End Python.

Arguments args : clear implicits.
Arguments obs : clear implicits.
Arguments state : clear implicits.
Arguments result : clear implicits.
Arguments M : clear implicits.
Arguments call : clear implicits.
Arguments prog : clear implicits.
Arguments op : clear implicits.

Module UntypedEventBus.
Section Bus.
Context {payload : Type}.
(** The order in which a set of the given members is traversed. *)
Variable set_order : gset hid → list hid.
(** The body of each handler: what [event_handler(data)] does. *)
Variable body : hid → payload → prog payload.

(** [__init__] *)
Definition init : state payload :=
  {| registry := ∅; event_handlers := None; next_oid := 1%positive; log := [] |}.

Definition register (event_name : string) (event_handler : hid) : M payload :=
  fun st =>
    if negb (truthy (registry st !! event_name))
    then setitem_new event_name event_handler st
    else getitem_add event_name event_handler st.

Definition unregister (event_name : string) (event_handler : hid) : M payload :=
  seq (getitem_remove event_name event_handler) (del_if_empty event_name).

(** [event_handler(data)], where the handler reaches [emit] as
    [bus_emit]. *)
Definition call_handler (bus_emit : string → payload → M payload)
    (data : payload) (event_handler : hid) : M payload :=
  invoke register unregister bus_emit
    event_handler (Args1 data) (body event_handler data).

(** [event_handlers] is the set object found under [event_name], or a
    new empty list, over which the loop does nothing.  [fuel] bounds the
    depth of handler calls inside handler calls; where Python would give up
    with a [RecursionError], the model has no answer. *)
Fixpoint emit (fuel : nat) (event_name : string) (data : payload) : M payload :=
  fun st =>
    match registry st !! event_name with
    | None => Ok st
    | Some (o, s) =>
        for_each set_order
          match fuel with
          | 0 => fun _ _ => OutOfFuel
          | S fuel' => call_handler (emit fuel') data
          end
          event_name o (size s) 0 (length (set_order s)) st
    end.

(** One call from outside, and a sequence of them.  A caller that gets
    an exception still holds the bus and can go on using it. *)
Definition run_op (fuel : nat) (c : op payload) : M payload :=
  match c with
  | Register e h => register e h
  | Unregister e h => unregister e h
  | Emit e d => emit fuel e d
  end.

Fixpoint run_ops (fuel : nat) (cs : list (op payload)) (st : state payload)
    : option (state payload) :=
  match cs with
  | [] => Some st
  | c :: cs' =>
      match run_op fuel c st with
      | Ok st' | Exn _ st' => run_ops fuel cs' st'
      | OutOfFuel => None
      end
  end.
End Bus.
End UntypedEventBus.

Module TypedEventBus.
Section Bus.
Context {payload : Type}.
Variable set_order : gset hid → list hid.
(** The body of each handler: what [event_handler(event_name, data)]
    does. *)
Variable body : hid → string → payload → prog payload.

(** [__init__] *)
Definition init : state payload :=
  {| registry := ∅; event_handlers := Some ∅; next_oid := 1%positive; log := [] |}.

Definition register (event_name : string) (func : hid) : M payload :=
  fun st =>
    if negb (truthy (registry st !! event_name))
    then setitem_new event_name func st
    else getitem_add event_name func st.

Definition unregister (event_name : string) (event_handler : hid) : M payload :=
  seq (getitem_remove event_name event_handler) (del_if_empty event_name).

(** [event_handler(event_name, data)] *)
Definition call_handler (bus_emit : string → payload → M payload)
    (event_name : string) (data : payload) (event_handler : hid) : M payload :=
  invoke register unregister bus_emit
    event_handler (Args2 event_name data) (body event_handler event_name data).

Fixpoint emit (fuel : nat) (event_name : string) (data : payload) : M payload :=
  fun st =>
    match registry st !! event_name with
    | None => Ok st
    | Some (o, s) =>
        for_each set_order
          match fuel with
          | 0 => fun _ _ => OutOfFuel
          | S fuel' => call_handler (emit fuel') event_name data
          end
          event_name o (size s) 0 (length (set_order s)) st
    end.

Definition run_op (fuel : nat) (c : op payload) : M payload :=
  match c with
  | Register e h => register e h
  | Unregister e h => unregister e h
  | Emit e d => emit fuel e d
  end.

Fixpoint run_ops (fuel : nat) (cs : list (op payload)) (st : state payload)
    : option (state payload) :=
  match cs with
  | [] => Some st
  | c :: cs' =>
      match run_op fuel c st with
      | Ok st' | Exn _ st' => run_ops fuel cs' st'
      | OutOfFuel => None
      end
  end.
End Bus.
End TypedEventBus.

(** * The demo of [src/main.py] *)

Module Demo.
Open Scope string_scope.

(** The three handlers that [main] registers. *)
Definition security_event_handler : hid := 1%positive.
Definition log_event_handler : hid := 2%positive.
Definition api_call_handler : hid := 3%positive.

(** What they do with the bus: the security handler counts and emits a
    log event, the log handler prints, the handler of API calls emits a
    log event with what it was given. *)
Definition body (h : hid) (data : string) : prog string :=
  if decide (h = security_event_handler)
  then Bus (CEmit "log_event" ("security event occurred: " ++ data)) (reraise Done)
  else if decide (h = api_call_handler)
  then Bus (CEmit "log_event" data) (reraise Done)
  else Done.

(** The same handlers for a typed bus. *)
Definition typed_body (h : hid) (event_name data : string) : prog string :=
  body h data.

(** The registrations of [main]. *)
Definition registrations : list (op string) :=
  [ Register "security_event" security_event_handler;
    Register "log_event" log_event_handler;
    Register "api_call" api_call_handler ].

(** [api_client.post()] *)
Definition post : list (op string) :=
  [ Emit "api_call" "API POST call data"; Emit "security_event" "POST" ].

(** The bus of [main] when the registrations are done. *)
Definition bus : state string :=
  default UntypedEventBus.init
    (UntypedEventBus.run_ops elements body 0 registrations UntypedEventBus.init).

(** Handlers like those of the log event, and one that raises. *)
Definition failing_handler : hid := 4%positive.

Definition failing_body (h : hid) (data : string) : prog string :=
  if decide (h = failing_handler) then Throw (UserError "failed") else Done.

(** A bus with three handlers for one event, the second one raising. *)
Definition failing_bus : state string :=
  {| registry := {[ "evt" := (1%positive, {[ 2%positive; 4%positive; 6%positive ]}) ]};
     event_handlers := None; next_oid := 2%positive; log := [] |}.

(** A handler that takes another handler off the event and puts a new one
    in its place. *)
Definition swapping_handler : hid := 6%positive.

Definition swapping_body (h : hid) (data : string) : prog string :=
  if decide (h = swapping_handler)
  then Bus (CUnregister "evt" 2%positive)
         (reraise (Bus (CRegister "evt" 8%positive) (reraise Done)))
  else Done.



End Demo.

(** * Notions used in the statements *)

Section Notions.
Context {payload : Type}.

(** The registry holds no empty set. *)
Definition no_empty_set (st : state payload) : Prop :=
  ∀ e o s, registry st !! e = Some (o, s) → s ≠ ∅.

(** What a typed bus keeps through every call. *)
Definition typed_bus_ok (st : state payload) : Prop :=
  no_empty_set st ∧ event_handlers st = Some ∅.

(** Every call into the bus that a handler body can make satisfies [Q]. *)
Inductive calls_in (Q : call payload → Prop) : prog payload → Prop :=
  | calls_in_done : calls_in Q Done
  | calls_in_throw x : calls_in Q (Throw x)
  | calls_in_bus c k : Q c → (∀ r, calls_in Q (k r)) → calls_in Q (Bus c k).

(** A log entry that shows a handler calling [register] or [unregister]. *)
Definition is_mutation (o : obs payload) : Prop :=
  match o with
  | Called (CRegister _ _) | Called (CUnregister _ _) => True
  | _ => False
  end.

(** The state a statement leaves, if it ends. *)
Definition final (r : result payload) : option (state payload) :=
  match r with
  | Ok st | Exn _ st => Some st
  | OutOfFuel => None
  end.

(** A statement keeps [I]: however it ends, [I] holds afterwards. *)
Definition preserves (I : state payload → Prop) (m : M payload) : Prop :=
  ∀ st, I st →
    match m st with
    | Ok st' | Exn _ st' => I st'
    | OutOfFuel => True
    end.

(** Number of calls of handler [h] in a log. *)
Fixpoint calls_of (h : hid) (l : list (obs payload)) : nat :=
  match l with
  | [] => 0
  | Invoked g _ :: l' => (if decide (g = h) then 1 else 0) + calls_of h l'
  | _ :: l' => calls_of h l'
  end.

(** The log of an emission in which every handler of [hs], called with
    arguments [a], returns at once. *)
Definition calls_and_returns (a : args payload) (hs : list hid) : list (obs payload) :=
  flat_map (fun g => [Invoked g a; Returned g]) hs.

(** A typed bus seen as an untyped one: the event name is dropped from the
    arguments of every call and the unused attribute is forgotten. *)
Definition erase_args (a : args payload) : args payload :=
  match a with
  | Args1 d => Args1 d
  | Args2 _ d => Args1 d
  end.

Definition erase_obs (o : obs payload) : obs payload :=
  match o with
  | Invoked h a => Invoked h (erase_args a)
  | o => o
  end.

Definition untyped_view (st : state payload) : state payload :=
  {| registry := registry st; event_handlers := None;
     next_oid := next_oid st; log := map erase_obs (log st) |}.

(** The same bus with more in its log. *)
Definition add_logs (l : list (obs payload)) (st : state payload) : state payload :=
  {| registry := registry st; event_handlers := event_handlers st;
     next_oid := next_oid st; log := log st ++ l |}.

(** The same bus but for its log. *)
Definition same_bus (st0 st : state payload) : Prop :=
  registry st = registry st0
  ∧ event_handlers st = event_handlers st0
  ∧ next_oid st = next_oid st0.

(** Since the bus was [st0] the log has grown, and unless it shows a
    handler calling [register] or [unregister], the bus is the same. *)
Definition same_unless_mutated (st0 st : state payload) : Prop :=
  ∃ l, log st = log st0 ++ l
       ∧ (Forall (fun o => ¬ is_mutation o) l → same_bus st0 st).

(** A log entry that shows a handler calling [register] or [unregister]
    for the event [e]. *)
Definition is_mutation_of (e : string) (o : obs payload) : Prop :=
  match o with
  | Called (CRegister e' _) | Called (CUnregister e' _) => e' = e
  | _ => False
  end.

(** Since the bus was [st0] the log has grown, and unless it shows a
    handler calling [register] or [unregister] for [e], the registry holds
    for [e] what it held. *)
Definition same_set_unless_mutated (e : string) (st0 st : state payload) : Prop :=
  ∃ l, log st = log st0 ++ l
       ∧ (Forall (fun o => ¬ is_mutation_of e o) l →
          registry st !! e = registry st0 !! e).

(** The log has grown from [l0]. *)
Definition log_from (l0 : list (obs payload)) (st : state payload) : Prop :=
  l0 `prefix_of` log st.

(** A log entry that shows a handler calling the bus. *)
Definition is_bus_call (o : obs payload) : Prop :=
  match o with
  | Called _ => True
  | _ => False
  end.

(** The handlers of [hs] are called one after the other, the first one in
    [st]; each call returns, and the last one leaves [st']. *)
Fixpoint calls_in_turn (call : hid → M payload) (hs : list hid)
    (st st' : state payload) : Prop :=
  match hs with
  | [] => st' = st
  | h :: hs' => ∃ st1, call h st = Ok st1 ∧ calls_in_turn call hs' st1 st'
  end.


Definition is_registration (c : op payload) : Prop :=
  match c with
  | Emit _ _ => False
  | _ => True
  end.

Definition untyped_result (r : result payload) : result payload :=
  match r with
  | Ok st => Ok (untyped_view st)
  | Exn x st => Exn x (untyped_view st)
  | OutOfFuel => OutOfFuel
  end.
End Notions.

(** * The client and the program of [src/main.py] *)

(** [class API]: a client is made with an emitter, and each of its methods
    hands the emitter one or two events.  When the first call raises, the
    method is left at once. *)
Module API.
Section Client.
Context {payload : Type}.
(** [self.emitter], and how a Python string is made a payload. *)
Variable emitter : string → payload → M payload.
Variable str : string → payload.

Definition post : M payload :=
  seq (emitter "api_call" (str "API POST call data"))
      (emitter "security_event" (str "POST")).

Definition put : M payload :=
  seq (emitter "api_call" (str "API PUT call data"))
      (emitter "security_event" (str "PUT")).

Definition get : M payload :=
  emitter "api_call" (str "API GET call data").

Definition delete : M payload :=
  seq (emitter "api_call" (str "API DELETE call data"))
      (emitter "security_event" (str "DELETE")).

Definition patch : M payload :=
  seq (emitter "api_call" (str "API PATCH call data"))
      (emitter "security_event" (str "PATCH")).

Definition option : M payload :=
  seq (emitter "api_call" (str "API OPTION call data"))
      (emitter "security_event" (str "OPTION")).
End Client.
End API.

Module Main.
Open Scope string_scope.

(** The payloads of the program: strings, and at the end the counter.  A
    [collections.Counter] gives 0 for a key it has not counted, so it is a
    function from keys to numbers. *)
Inductive value : Type :=
  | Str (s : string)
  | Counter (c : string → nat).

(** The handlers, as [main] makes them: closures over [bus.emit] and the
    counter.  [closure_security_event_handler]: [counter[data] += 1], which
    raises [TypeError] for a key that cannot be hashed, as a [Counter] is;
    then a log event.  [closure_api_call_handler]: a log event with the data
    it was given.  [log_event_handler]: prints. *)
Definition body (h : hid) (data : value) : prog value :=
  if decide (h = Demo.security_event_handler)
  then match data with
       | Str s =>
           Bus (CEmit "log_event" (Str ("security event occurred: " ++ s)))
             (reraise Done)
       | Counter _ => Throw (UserError "TypeError")
       end
  else if decide (h = Demo.api_call_handler)
  then Bus (CEmit "log_event" data) (reraise Done)
  else Done.

(** What the two effects outside the bus amount to, read off the calls:
    [counter[s]] is the number of calls of the security handler with [s], and
    the log handler has printed the data of each of its calls. *)
Fixpoint counter (l : list (obs value)) (s : string) : nat :=
  match l with
  | [] => 0
  | Invoked h (Args1 (Str s')) :: l' =>
      (if decide (h = Demo.security_event_handler ∧ s' = s) then 1 else 0)
      + counter l' s
  | _ :: l' => counter l' s
  end.

Fixpoint printed (l : list (obs value)) : list value :=
  match l with
  | [] => []
  | Invoked h (Args1 d) :: l' =>
      if decide (h = Demo.log_event_handler) then d :: printed l' else printed l'
  | _ :: l' => printed l'
  end.

(** The methods of the client; [calls] are the ones [main] chooses among. *)
Inductive method : Type := GET | PUT | POST | DELETE | PATCH | OPTION.

#[global] Instance method_eq_dec : EqDecision method.
Proof. solve_decision. Defined.

Definition calls : list method := [GET; PUT; POST; DELETE; OPTION].

Definition call (emitter : string → value → M value) (m : method) : M value :=
  match m with
  | GET => API.get emitter Str
  | PUT => API.put emitter Str
  | POST => API.post emitter Str
  | DELETE => API.delete emitter Str
  | PATCH => API.patch emitter Str
  | OPTION => API.option emitter Str
  end.

(** The rounds of the loop, [picks] being what [random.choice(calls)] gives
    round after round. *)
Fixpoint loop (emitter : string → value → M value) (picks : list method) : M value :=
  match picks with
  | [] => Ok
  | m :: picks' => seq (call emitter m) (loop emitter picks')
  end.

(** The three registrations. *)
Definition setup : M value :=
  seq (UntypedEventBus.register "security_event" Demo.security_event_handler)
    (seq (UntypedEventBus.register "log_event" Demo.log_event_handler)
       (UntypedEventBus.register "api_call" Demo.api_call_handler)).

(** [main()], the loop making one round for each of [picks]. *)
Definition main (set_order : gset hid → list hid) (fuel : nat)
    (picks : list method) : result value :=
  let bus_emit := UntypedEventBus.emit set_order body fuel in
  seq setup
    (seq (loop bus_emit picks)
       (fun st => bus_emit "log_event" (Counter (counter (log st))) st))
    UntypedEventBus.init.

(** Names and data of the methods, and the number of rounds that chose a
    method. *)
Definition name (m : method) : string :=
  match m with
  | GET => "GET" | PUT => "PUT" | POST => "POST"
  | DELETE => "DELETE" | PATCH => "PATCH" | OPTION => "OPTION"
  end.

Definition lines (m : method) : list value :=
  Str ("API " ++ name m ++ " call data")
  :: match m with
     | GET => []
     | _ => [Str ("security event occurred: " ++ name m)]
     end.

Definition chosen (m : method) (picks : list method) : nat :=
  length (filter (fun m' => m' = m) picks).

(** A bus wired as [main] wires it: each of the three events has its one
    handler. *)
Definition wired (st : state value) : Prop :=
  (∃ o, registry st !! "security_event" = Some (o, {[Demo.security_event_handler]}))
  ∧ (∃ o, registry st !! "log_event" = Some (o, {[Demo.log_event_handler]}))
  ∧ (∃ o, registry st !! "api_call" = Some (o, {[Demo.api_call_handler]})).
End Main.

(** * Properties *)

(** ** Registration and unregistration *)

Section Registration.
Context {payload : Type}.
Implicit Types (st : state payload) (e : string) (h g : hid).

(** The two classes have the same [register] and the same [unregister]. *)
Lemma typed_register_eq :
  @TypedEventBus.register payload = UntypedEventBus.register.
Proof. reflexivity. Qed.

Lemma typed_unregister_eq :
  @TypedEventBus.unregister payload = UntypedEventBus.unregister.
Proof. reflexivity. Qed.

Lemma truthy_false_iff st e :
  truthy (registry st !! e) = false ↔ handlers_of st e = ∅.
Proof.
  unfold truthy, handlers_of.
  destruct (registry st !! e) as [[o s]|]; [|done].
  rewrite bool_decide_eq_false. split; [|naive_solver].
  intros Hs. by destruct (decide (s = ∅)).
Qed.

Lemma register_fresh st e h :
  handlers_of st e = ∅ →
  UntypedEventBus.register e h st = setitem_new e h st.
Proof.
  intros He%truthy_false_iff. unfold UntypedEventBus.register. by rewrite He.
Qed.

Lemma register_add st e h o s :
  registry st !! e = Some (o, s) → s ≠ ∅ →
  UntypedEventBus.register e h st =
    Ok (set_registry (<[e := (o, {[h]} ∪ s)]> (registry st)) st).
Proof.
  intros He Hs. unfold UntypedEventBus.register, getitem_add. rewrite He. simpl.
  by rewrite bool_decide_eq_true_2.
Qed.

(** [unregister], its two statements run together. *)
Lemma unregister_unfold st e h :
  UntypedEventBus.unregister e h st =
    match registry st !! e with
    | Some (o, s) =>
        if decide (h ∈ s)
        then if decide (size (s ∖ {[h]}) = 0)
             then Ok (set_registry (delete e (registry st)) st)
             else Ok (set_registry (<[e := (o, s ∖ {[h]})]> (registry st)) st)
        else Exn KeyError st
    | None => Exn KeyError st
    end.
Proof.
  unfold UntypedEventBus.unregister, seq, getitem_remove, del_if_empty.
  destruct (registry st !! e) as [[o s]|]; [|done].
  destruct (decide (h ∈ s)); [|done]. simpl.
  rewrite lookup_insert_eq.
  destruct (decide (size (s ∖ {[h]}) = 0)); [|done].
  unfold set_registry. simpl. by rewrite delete_insert_eq.
Qed.

Lemma unregister_ok st e h o s :
  registry st !! e = Some (o, s) → h ∈ s →
  ∃ st', UntypedEventBus.unregister e h st = Ok st'
         ∧ handlers_of st' e = s ∖ {[h]}
         ∧ (s ∖ {[h]} = ∅ → registry st' !! e = None)
         ∧ (∀ e', e' ≠ e → registry st' !! e' = registry st !! e').
Proof.
  intros He Hh. rewrite unregister_unfold, He.
  rewrite decide_True by done.
  destruct (decide (size (s ∖ {[h]}) = 0)) as [Hz|Hz]; eexists; (split; [done|]).
  - apply size_empty_iff, leibniz_equiv in Hz.
    unfold handlers_of. simpl. rewrite lookup_delete_eq.
    split_and!; [done|done|]. intros e' Hne. by rewrite lookup_delete_ne.
  - unfold handlers_of. simpl. rewrite lookup_insert_eq.
    split_and!; [done| |].
    + intros Hs. rewrite Hs in Hz. by rewrite size_empty in Hz.
    + intros e' Hne. by rewrite lookup_insert_ne.
Qed.

Lemma unregister_key_error st e h :
  registry st !! e = None ∨ h ∉ handlers_of st e →
  UntypedEventBus.unregister e h st = Exn KeyError st.
Proof.
  rewrite unregister_unfold. unfold handlers_of.
  destruct (registry st !! e) as [[o s]|]; [|done].
  intros [?|Hh]; [done|]. by rewrite decide_False.
Qed.

Lemma unregister_cases st e h :
  (∃ o s, registry st !! e = Some (o, s) ∧ h ∈ s) ∨
  (registry st !! e = None ∨ h ∉ handlers_of st e).
Proof.
  unfold handlers_of.
  destruct (registry st !! e) as [[o s]|]; [|by right; left].
  destruct (decide (h ∈ s)); [left; by eauto|by right; right].
Qed.

Lemma register_total st e h : ∃ st', UntypedEventBus.register e h st = Ok st'.
Proof.
  unfold UntypedEventBus.register, setitem_new, getitem_add, truthy.
  destruct (registry st !! e) as [[o s]|]; simpl; [|by eexists].
  destruct (bool_decide (s ≠ ∅)); simpl; by eexists.
Qed.

Lemma register_not_raises st e h x st' :
  UntypedEventBus.register e h st ≠ Exn x st'.
Proof.
  destruct (register_total st e h) as [st1 ->]. done.
Qed.

Lemma register_handlers_of st st' e h :
  UntypedEventBus.register e h st = Ok st' →
  handlers_of st' e = {[h]} ∪ handlers_of st e.
Proof.
  destruct (decide (handlers_of st e = ∅)) as [He|He].
  - rewrite register_fresh by done. intros [= <-].
    unfold handlers_of in *. simpl. rewrite lookup_insert_eq.
    destruct (registry st !! e) as [[o s]|]; subst; by rewrite (right_id_L ∅ (∪)).
  - unfold handlers_of in *.
    destruct (registry st !! e) as [[o s]|] eqn:Hr; [|done].
    rewrite (register_add st e h o s) by done. intros [= <-].
    simpl. by rewrite lookup_insert_eq.
Qed.

Lemma register_registry_other st st' e h e' :
  UntypedEventBus.register e h st = Ok st' → e' ≠ e →
  registry st' !! e' = registry st !! e'.
Proof.
  unfold UntypedEventBus.register, setitem_new, getitem_add.
  intros Hreg Hne.
  destruct (negb _); [simplify_eq; simpl; by rewrite lookup_insert_ne|].
  destruct (registry st !! e) as [[o s]|]; [|done].
  simplify_eq. simpl. by rewrite lookup_insert_ne.
Qed.
End Registration.

(** ** Statements that keep an invariant *)

Section Preservation.
Context {payload : Type}.
Implicit Types (st : state payload) (I : state payload → Prop)
  (m : M payload) (p : prog payload).

Lemma preserves_seq I m1 m2 :
  preserves I m1 → preserves I m2 → preserves I (seq m1 m2).
Proof.
  intros H1 H2 st HI. specialize (H1 st HI). unfold seq.
  destruct (m1 st) as [st1|x st1|]; [|done..]. by apply H2.
Qed.

Lemma preserves_try_catch I m (k : option exn → M payload) :
  preserves I m → (∀ r, preserves I (k r)) → preserves I (try_catch m k).
Proof.
  intros Hm Hk st HI. specialize (Hm st HI). unfold try_catch.
  destruct (m st) as [st1|x st1|]; [by apply Hk..|done].
Qed.

Lemma calls_in_any p : calls_in (fun _ => True) p.
Proof. induction p; constructor; auto. Qed.

Section Handlers.
Variable bus_register bus_unregister : string → hid → M payload.
Variable bus_emit : string → payload → M payload.
Variable I : state payload → Prop.
Variable Q : call payload → Prop.
Hypothesis I_log : ∀ o st, I st → I (add_log o st).
Hypothesis I_call :
  ∀ c, Q c → preserves I (do_call bus_register bus_unregister bus_emit c).

Lemma preserves_exec p :
  calls_in Q p → preserves I (exec bus_register bus_unregister bus_emit p).
Proof using I_call.
  induction 1 as [|x|c k Hc Hk IH]; simpl.
  - by intros st HI.
  - by intros st HI.
  - apply preserves_try_catch; auto.
Qed.

Lemma preserves_invoke h a p :
  calls_in Q p →
  preserves I (invoke bus_register bus_unregister bus_emit h a p).
Proof using I_log I_call.
  intros Hp st HI. unfold invoke.
  pose proof (preserves_exec p Hp (add_log (Invoked h a) st) (I_log _ _ HI)) as H.
  destruct (exec _ _ _ _ _) as [st1|x st1|]; auto.
Qed.
End Handlers.

Lemma elem_of_live_entries (order : gset hid → list hid) e o st h :
  h ∈ live_entries order e o st →
  ∃ s, registry st !! e = Some (o, s) ∧ h ∈ order s.
Proof.
  unfold live_entries.
  destruct (registry st !! e) as [[o' s]|]; [|by intros ?%elem_of_nil].
  destruct (decide (o' = o)) as [->|]; [by eauto|by intros ?%elem_of_nil].
Qed.

Lemma preserves_for_each I (order : gset hid → list hid) (f : hid → M payload)
    e o n pos left :
  (∀ h st, I st → h ∈ live_entries order e o st →
     match f h st with
     | Ok st' | Exn _ st' => I st'
     | OutOfFuel => True
     end) →
  preserves I (for_each order f e o n pos left).
Proof.
  intros Hf. revert pos. induction left as [|left IH]; intros pos st HI; simpl.
  - by destruct (decide _).
  - destruct (decide _); [|done].
    destruct (live_entries order e o st !! pos) as [h|] eqn:Hh; [|done].
    unfold seq.
    pose proof (Hf h st HI (list_elem_of_lookup_2 _ _ _ Hh)) as Hcall.
    destruct (f h st) as [st1|x st1|]; [|done..]. by apply IH.
Qed.

Lemma preserves_after_log I (o : obs payload) m :
  (∀ st, I st → I (add_log o st)) → preserves I m →
  preserves I (fun st => m (add_log o st)).
Proof. intros Hlog Hm st HI. apply Hm. by apply Hlog. Qed.

End Preservation.

(** ** Emission keeps what its handlers keep *)

Section EmitPreserves.
Context {payload : Type}.
Variable set_order : gset hid → list hid.
Variable I : state payload → Prop.
Variable Q : call payload → Prop.
Hypothesis I_log : ∀ o st, I st → I (add_log o st).
Hypothesis I_register :
  ∀ e h, Q (CRegister e h) →
    preserves I (fun st => UntypedEventBus.register e h
                             (add_log (Called (CRegister e h)) st)).
Hypothesis I_unregister :
  ∀ e h, Q (CUnregister e h) →
    preserves I (fun st => UntypedEventBus.unregister e h
                             (add_log (Called (CUnregister e h)) st)).

(** The loop of [emit], whatever arguments [a] and bodies [b] the handlers
    are called with. *)
Lemma preserves_dispatch (rec : string → payload → M payload)
    (a : hid → args payload) (b : hid → prog payload) e o n pos left :
  (∀ e' d', preserves I (rec e' d')) →
  (∀ st h, I st → h ∈ live_entries set_order e o st → calls_in Q (b h)) →
  preserves I
    (for_each set_order
       (fun h => invoke UntypedEventBus.register UntypedEventBus.unregister rec
                   h (a h) (b h))
       e o n pos left).
Proof using I_log I_register I_unregister.
  intros Hrec Hb. apply preserves_for_each. intros h st HI Hh.
  assert (preserves I
            (invoke UntypedEventBus.register UntypedEventBus.unregister rec
               h (a h) (b h))) as Hp; [|exact (Hp st HI)].
  apply (preserves_invoke _ _ _ I Q); auto.
  - intros [e' h'|e' h'|e' d'] Hc; unfold do_call.
    + by apply I_register.
    + by apply I_unregister.
    + intros st1 HI1. apply Hrec. by apply I_log.
  - by eapply Hb.
Qed.

Lemma untyped_emit_preserves (body : hid → payload → prog payload) :
  (∀ st e o s h d,
     I st → registry st !! e = Some (o, s) → h ∈ set_order s →
     calls_in Q (body h d)) →
  ∀ fuel e d, preserves I (UntypedEventBus.emit set_order body fuel e d).
Proof using I_log I_register I_unregister.
  intros Hbody. induction fuel as [|fuel IH]; intros e d st HI; simpl.
  - destruct (registry st !! e) as [[o s]|]; [|done].
    revert st HI. by apply preserves_for_each.
  - destruct (registry st !! e) as [[o s]|] eqn:He; [|done].
    apply (preserves_dispatch (UntypedEventBus.emit set_order body fuel)
             (fun _ => Args1 d) (fun h => body h d)); auto.
    intros st1 h HI1 (s1 & He1 & Hh)%elem_of_live_entries. by eapply Hbody.
Qed.

Lemma typed_emit_preserves (body : hid → string → payload → prog payload) :
  (∀ st e o s h d,
     I st → registry st !! e = Some (o, s) → h ∈ set_order s →
     calls_in Q (body h e d)) →
  ∀ fuel e d, preserves I (TypedEventBus.emit set_order body fuel e d).
Proof using I_log I_register I_unregister.
  intros Hbody. induction fuel as [|fuel IH]; intros e d st HI; simpl.
  - destruct (registry st !! e) as [[o s]|]; [|done].
    revert st HI. by apply preserves_for_each.
  - destruct (registry st !! e) as [[o s]|] eqn:He; [|done].
    apply (preserves_dispatch (TypedEventBus.emit set_order body fuel)
             (fun _ => Args2 e d) (fun h => body h e d)); auto.
    intros st1 h HI1 (s1 & He1 & Hh)%elem_of_live_entries. by eapply Hbody.
Qed.
End EmitPreserves.

(** ** The contract of [unregister] *)

(** C1.  [unregister(e, h)] raises exactly when [e] is not a key of the
    registry or [h] is not in the set registered for [e], and what it raises
    is then [KeyError]; when [e] is a key and [h] is in its set, it returns,
    and the handlers registered for [e] afterwards are the ones before
    without [h], the other keys being left as they were.  This holds for both
    classes. *)
Theorem unregister_raises_iff_not_registered {payload : Type}
    (st : state payload) (e : string) (h : hid) :
  let contract (unregister : string → hid → M payload) :=
    ((∃ x st', unregister e h st = Exn x st') ↔
       (registry st !! e = None ∨ h ∉ handlers_of st e))
    ∧ (∀ x st', unregister e h st = Exn x st' → x = KeyError)
    ∧ (is_Some (registry st !! e) ∧ h ∈ handlers_of st e →
       ∃ st', unregister e h st = Ok st'
              ∧ handlers_of st' e = handlers_of st e ∖ {[h]}
              ∧ ∀ e', e' ≠ e → registry st' !! e' = registry st !! e') in
  contract UntypedEventBus.unregister ∧ contract TypedEventBus.unregister.
Proof.
  intros contract.
  cut (contract UntypedEventBus.unregister);
    [intros H; split; [exact H|by rewrite typed_unregister_eq]|].
  unfold contract. clear contract.
  destruct (unregister_cases st e h) as [(o & s & He & Hh)|Hno].
  - destruct (unregister_ok st e h o s He Hh) as (st' & Hun & Hset & _ & Hother).
    assert (handlers_of st e = s) as Hs by (unfold handlers_of; by rewrite He).
    rewrite Hun, Hs. split_and!.
    + split; [by intros (? & ? & ?)|]. intros [Hnone|Hnot]; [congruence|done].
    + done.
    + intros _. by exists st'.
  - rewrite (unregister_key_error st e h Hno). split_and!.
    + split; [done|by eauto].
    + by intros x st' [= <- _].
    + intros [[v Hv] Hh]. destruct Hno as [Hnone|Hnot]; [congruence|done].
Qed.

(** C8.  When [unregister(e, h)] raises, the bus is as it was before the
    call, in both classes. *)
Theorem unregister_failure_is_atomic {payload : Type}
    (st st' : state payload) (e : string) (h : hid) (x : exn) :
  (UntypedEventBus.unregister e h st = Exn x st' → st' = st)
  ∧ (TypedEventBus.unregister e h st = Exn x st' → st' = st).
Proof.
  cut (UntypedEventBus.unregister e h st = Exn x st' → st' = st);
    [intros H; split; [exact H|by rewrite typed_unregister_eq]|].
  destruct (unregister_cases st e h) as [(o & s & He & Hh)|Hno].
  - by destruct (unregister_ok st e h o s He Hh) as (st1 & -> & _).
  - rewrite (unregister_key_error st e h Hno). by intros [= _ <-].
Qed.

(** ** Registering, then unregistering *)

(** C5.  In a bus where no handler is registered for [e], [register(e, h)]
    followed by [unregister(e, h)] both return and leave the registry
    without the key [e]; the other keys are as before. *)
Theorem register_unregister_removes_key {payload : Type}
    (st : state payload) (e : string) (h : hid) :
  handlers_of st e = ∅ →
  ∃ st1 st2,
    UntypedEventBus.register e h st = Ok st1
    ∧ UntypedEventBus.unregister e h st1 = Ok st2
    ∧ registry st2 !! e = None
    ∧ ∀ e', e' ≠ e → registry st2 !! e' = registry st !! e'.
Proof.
  intros He. rewrite (register_fresh st e h He). unfold setitem_new.
  set (st1 := {| registry := <[e := (next_oid st, {[h]})]> (registry st);
                 event_handlers := event_handlers st;
                 next_oid := Pos.succ (next_oid st); log := log st |}).
  destruct (unregister_ok st1 e h (next_oid st) {[h]})
    as (st2 & Hun & _ & Hdel & Hother);
    [apply lookup_insert_eq|by apply elem_of_singleton|].
  exists st1, st2. split_and!; [done|exact Hun| |].
  - apply Hdel. apply difference_diag_L.
  - intros e' Hne. rewrite (Hother e' Hne). simpl. by rewrite lookup_insert_ne.
Qed.

(** ** Emitting to nobody *)

(** C4.  When [e] is not a key of the registry, [emit(e, payload)] returns
    and leaves the bus as it was: no exception, no handler called (the log
    is the same), no change of the registry. *)
Theorem emit_unregistered_is_noop {payload : Type}
    (set_order : gset hid → list hid) (body : hid → payload → prog payload)
    (fuel : nat) (st : state payload) (e : string) (d : payload) :
  registry st !! e = None →
  UntypedEventBus.emit set_order body fuel e d st = Ok st.
Proof.
  intros He. destruct fuel; simpl; by rewrite He.
Qed.

(** ** Keys and non-empty sets *)

Section Invariant.
Context {payload : Type}.
Implicit Types (st : state payload) (e : string) (h : hid).

Lemma no_empty_set_init : no_empty_set (@UntypedEventBus.init payload).
Proof. intros e o s. simpl. by rewrite lookup_empty. Qed.

Lemma no_empty_set_log (o : obs payload) st :
  no_empty_set st → no_empty_set (add_log o st).
Proof. done. Qed.

Lemma register_no_empty_set e h :
  preserves no_empty_set (UntypedEventBus.register (payload:=payload) e h).
Proof.
  intros st Hinv.
  destruct (register_total st e h) as [st' Hreg]. rewrite Hreg.
  intros e' o s Hlook. destruct (decide (e' = e)) as [->|Hne].
  - pose proof (register_handlers_of st st' e h Hreg) as Hs.
    unfold handlers_of at 1 in Hs. rewrite Hlook in Hs. rewrite Hs.
    apply (non_empty_inhabited_L h). apply elem_of_union_l.
    by apply elem_of_singleton.
  - rewrite (register_registry_other st st' e h e' Hreg Hne) in Hlook.
    by eapply Hinv.
Qed.

Lemma unregister_no_empty_set e h :
  preserves no_empty_set (UntypedEventBus.unregister (payload:=payload) e h).
Proof.
  intros st Hinv.
  destruct (unregister_cases st e h) as [(o & s & He & Hh)|Hno].
  - destruct (unregister_ok st e h o s He Hh) as (st' & -> & Hset & Hdel & Hother).
    intros e' o' s' Hlook. destruct (decide (e' = e)) as [->|Hne].
    + unfold handlers_of in Hset. rewrite Hlook in Hset. subst s'.
      intros Hempty. specialize (Hdel Hempty). congruence.
    + rewrite (Hother e' Hne) in Hlook. by eapply Hinv.
  - by rewrite (unregister_key_error st e h Hno).
Qed.

Lemma key_iff_nonempty st :
  no_empty_set st → ∀ e, is_Some (registry st !! e) ↔ handlers_of st e ≠ ∅.
Proof.
  intros Hinv e. unfold handlers_of. split.
  - intros [[o s] He]. rewrite He. by eapply Hinv.
  - destruct (registry st !! e) as [[o s]|]; [by eauto|done].
Qed.

Lemma untyped_run_op_no_empty_set set_order body fuel (c : op payload) :
  preserves no_empty_set (UntypedEventBus.run_op set_order body fuel c).
Proof.
  destruct c as [e h|e h|e d]; simpl.
  - apply register_no_empty_set.
  - apply unregister_no_empty_set.
  - apply (untyped_emit_preserves set_order no_empty_set (fun _ => True)).
    + apply no_empty_set_log.
    + intros. apply preserves_after_log;
        [apply no_empty_set_log|apply register_no_empty_set].
    + intros. apply preserves_after_log;
        [apply no_empty_set_log|apply unregister_no_empty_set].
    + intros. apply calls_in_any.
Qed.

Lemma untyped_run_ops_no_empty_set set_order body fuel (cs : list (op payload)) :
  ∀ st st',
    no_empty_set st →
    UntypedEventBus.run_ops set_order body fuel cs st = Some st' →
    no_empty_set st'.
Proof.
  induction cs as [|c cs IH]; intros st st' Hinv; simpl.
  - by intros [= <-].
  - pose proof (untyped_run_op_no_empty_set set_order body fuel c st Hinv) as Hc.
    destruct (UntypedEventBus.run_op _ _ _ _ _) as [st1|x st1|]; [| |done];
      by apply IH.
Qed.
End Invariant.

(** C2.  After any sequence of [register], [unregister] and [emit] calls on
    a new bus, whatever the handlers do when called (they may call the bus
    themselves), an event name is a key of the registry exactly when some
    handler is registered for it; and an [unregister] that returns and leaves
    no handler for its event name leaves the registry without that key. *)
Theorem registry_key_iff_nonempty {payload : Type}
    (set_order : gset hid → list hid) (body : hid → payload → prog payload)
    (fuel : nat) (cs : list (op payload)) (st : state payload) :
  UntypedEventBus.run_ops set_order body fuel cs UntypedEventBus.init = Some st →
  (∀ e, is_Some (registry st !! e) ↔ handlers_of st e ≠ ∅)
  ∧ (∀ e h st',
       UntypedEventBus.unregister e h st = Ok st' →
       handlers_of st e ∖ {[h]} = ∅ →
       registry st' !! e = None).
Proof.
  intros Hrun. split.
  - apply key_iff_nonempty.
    eapply untyped_run_ops_no_empty_set; [apply no_empty_set_init|exact Hrun].
  - intros e h st' Hun Hlast.
    destruct (unregister_cases st e h) as [(o & s & He & Hh)|Hno].
    + destruct (unregister_ok st e h o s He Hh) as (st1 & Hun1 & _ & Hdel & _).
      rewrite Hun in Hun1. injection Hun1 as <-. apply Hdel.
      unfold handlers_of in Hlast. by rewrite He in Hlast.
    + by rewrite (unregister_key_error st e h Hno) in Hun.
Qed.

(** ** The loop of [emit] *)

Section Loop.
Context {payload : Type}.
Variable order : gset hid → list hid.
Implicit Types (st : state payload) (f : hid → M payload) (hs : list hid).

Lemma live_size_same e o s st :
  registry st !! e = Some (o, s) → live_size e o st = size s.
Proof. intros He. unfold live_size. by rewrite He, decide_True. Qed.

Lemma live_entries_same e o s st :
  registry st !! e = Some (o, s) → live_entries order e o st = order s.
Proof. intros He. unfold live_entries. by rewrite He, decide_True. Qed.

Lemma add_logs_nil st : add_logs [] st = st.
Proof. unfold add_logs. rewrite (right_id_L [] (++)). by destruct st. Qed.

Lemma add_logs_cons (o1 : obs payload) l st :
  add_logs (o1 :: l) st = add_logs l (add_log o1 st).
Proof. unfold add_logs, add_log. simpl. by rewrite <- (assoc_L (++)). Qed.

(** A loop that ends normally leaves the set with the size it had. *)
Lemma for_each_ok_size f e o n pos left st st' :
  for_each order f e o n pos left st = Ok st' → live_size e o st' = n.
Proof.
  revert pos st. induction left as [|left IH]; intros pos st; simpl.
  - destruct (decide (live_size e o st = n)); [|done]. by intros [= <-].
  - destruct (decide (live_size e o st = n)); [|done].
    destruct (live_entries order e o st !! pos) as [h|]; [|by intros [= <-]].
    unfold seq. destruct (f h st) as [st1|x st1|]; [|done..]. apply IH.
Qed.

(** One step of the loop over a set that is now [s]. *)
Lemma for_each_step f e o s pos left h st :
  registry st !! e = Some (o, s) → order s !! pos = Some h →
  for_each order f e o (size s) pos (S left) st
  = seq (f h) (for_each order f e o (size s) (S pos) left) st.
Proof.
  intros He Hh. simpl.
  by rewrite (live_size_same e o s st He), decide_True,
    (live_entries_same e o s st He), Hh by done.
Qed.

Lemma for_each_end f e o s pos st :
  registry st !! e = Some (o, s) →
  for_each order f e o (size s) pos 0 st = Ok st.
Proof.
  intros He. simpl. by rewrite (live_size_same e o s st He), decide_True.
Qed.

(** Once the set has another size, the loop raises at its next step. *)
Lemma for_each_size_changed f e o n pos left st :
  live_size e o st ≠ n →
  for_each order f e o n pos left st = Exn RuntimeError st.
Proof. intros Hn. destruct left; simpl; by rewrite decide_False. Qed.

(** Handlers that return at once: the loop calls each one, in order. *)
Lemma for_each_leaf (bus_register bus_unregister : string → hid → M payload)
    (bus_emit : string → payload → M payload)
    (a : args payload) (b : hid → prog payload) e o s pre hs post left st :
  registry st !! e = Some (o, s) →
  order s = pre ++ hs ++ post →
  (∀ g, g ∈ hs → b g = Done) →
  for_each order (fun g => invoke bus_register bus_unregister bus_emit g a (b g))
    e o (size s) (length pre) (length hs + left) st
  = for_each order (fun g => invoke bus_register bus_unregister bus_emit g a (b g))
      e o (size s) (length pre + length hs) left
      (add_logs (calls_and_returns a hs) st).
Proof.
  revert pre st. induction hs as [|g hs IH]; intros pre st He Horder Hb.
  - simpl. by rewrite Nat.add_0_r, add_logs_nil.
  - change (length (g :: hs) + left) with (S (length hs + left)).
    rewrite (for_each_step _ e o s (length pre) _ g st He)
      by (rewrite Horder; apply list_lookup_middle; done).
    unfold seq, invoke. rewrite (Hb g) by (by left). simpl.
    replace (S (length pre)) with (length (pre ++ [g]))
      by (rewrite length_app; simpl; lia).
    rewrite IH; [|done|by rewrite <- (assoc_L (++))|intros g' Hg'; apply Hb; by right].
    rewrite !add_logs_cons. f_equal. rewrite length_app. simpl. lia.
Qed.

Lemma for_each_leaf_rest (bus_register bus_unregister : string → hid → M payload)
    (bus_emit : string → payload → M payload)
    (a : args payload) (b : hid → prog payload) e o s pre hs st :
  registry st !! e = Some (o, s) →
  order s = pre ++ hs →
  (∀ g, g ∈ hs → b g = Done) →
  for_each order (fun g => invoke bus_register bus_unregister bus_emit g a (b g))
    e o (size s) (length pre) (length hs) st
  = Ok (add_logs (calls_and_returns a hs) st).
Proof.
  intros He Horder Hb.
  pose proof (for_each_leaf bus_register bus_unregister bus_emit a b
                e o s pre hs [] 0 st He) as Hrun.
  rewrite Nat.add_0_r in Hrun.
  rewrite Hrun; [|by rewrite (right_id_L [] (++))|done].
  by apply (for_each_end _ e o s).
Qed.

Lemma for_each_returning (bus_register bus_unregister : string → hid → M payload)
    (bus_emit : string → payload → M payload)
    (a : args payload) (b : hid → prog payload) e o s st :
  registry st !! e = Some (o, s) →
  (∀ g, g ∈ order s → b g = Done) →
  for_each order (fun g => invoke bus_register bus_unregister bus_emit g a (b g))
    e o (size s) 0 (length (order s)) st
  = Ok (add_logs (calls_and_returns a (order s)) st).
Proof.
  intros He Hb.
  by apply (for_each_leaf_rest bus_register bus_unregister bus_emit a b
              e o s [] (order s) st).
Qed.
End Loop.

Section Counting.
Context {payload : Type}.
Implicit Types (hs : list hid).

Lemma calls_of_app h (l1 l2 : list (obs payload)) :
  calls_of h (l1 ++ l2) = calls_of h l1 + calls_of h l2.
Proof.
  induction l1 as [|[g a|c|g] l1 IH]; simpl; [done| |done..].
  rewrite IH. lia.
Qed.

Lemma calls_of_returning_absent h (a : args payload) hs :
  h ∉ hs → calls_of h (calls_and_returns a hs) = 0.
Proof.
  induction hs as [|g hs IH]; [done|]. simpl.
  intros [Hne Hnot]%not_elem_of_cons.
  rewrite decide_False by done. by apply IH.
Qed.

Lemma calls_of_returning_once h (a : args payload) hs :
  NoDup hs → h ∈ hs → calls_of h (calls_and_returns a hs) = 1.
Proof.
  induction 1 as [|g hs Hg Hnd IH]; [by intros ?%elem_of_nil|]. simpl.
  intros [->|Hin]%elem_of_cons.
  - rewrite decide_True by done. by rewrite calls_of_returning_absent.
  - rewrite decide_False by (intros ->; done). by apply IH.
Qed.

Lemma invoked_in_returning h (a : args payload) hs :
  h ∈ hs → Invoked h a ∈ calls_and_returns a hs.
Proof.
  induction hs as [|g hs IH]; [by intros ?%elem_of_nil|]. simpl.
  intros [->|Hin]%elem_of_cons; [by left|]. right. right. by apply IH.
Qed.
End Counting.

(** ** The order of traversal *)

Section Order.
Variable set_order : gset hid → list hid.
Hypothesis set_order_perm : ∀ s, set_order s ≡ₚ elements s.

Lemma elem_of_set_order s h : h ∈ set_order s ↔ h ∈ s.
Proof using set_order_perm. by rewrite set_order_perm, elem_of_elements. Qed.

Lemma NoDup_set_order s : NoDup (set_order s).
Proof using set_order_perm. rewrite set_order_perm. apply NoDup_elements. Qed.
End Order.

(** ** Fuel *)

(** Fuel only bounds the depth of the calls: a statement that ends with
    some fuel ends the same way with more. *)
Section Fuel.
Context {payload : Type}.
Variable set_order : gset hid → list hid.
Variable body : hid → payload → prog payload.
Implicit Types (st : state payload) (f : hid → M payload).

Lemma for_each_more_fuel f f' e o n pos left st :
  (∀ h st1, f h st1 ≠ OutOfFuel → f' h st1 = f h st1) →
  for_each set_order f e o n pos left st ≠ OutOfFuel →
  for_each set_order f' e o n pos left st = for_each set_order f e o n pos left st.
Proof.
  intros Hf. revert pos st. induction left as [|left IH]; intros pos st; simpl; [done|].
  destruct (decide (live_size e o st = n)); [|done].
  destruct (live_entries set_order e o st !! pos) as [h|]; [|done]. unfold seq.
  destruct (f h st) as [st1|x st1|] eqn:Hh; [| |done]; intros Hrun;
    rewrite (Hf h st), Hh by (by rewrite Hh); [by apply IH|done].
Qed.

Lemma exec_more_fuel (em em' : string → payload → M payload) p st :
  (∀ e d st1, em e d st1 ≠ OutOfFuel → em' e d st1 = em e d st1) →
  exec UntypedEventBus.register UntypedEventBus.unregister em p st ≠ OutOfFuel →
  exec UntypedEventBus.register UntypedEventBus.unregister em' p st
  = exec UntypedEventBus.register UntypedEventBus.unregister em p st.
Proof.
  intros Hem. revert st. induction p as [|x|c k IH]; intros st; simpl; [done..|].
  unfold try_catch.
  assert (do_call UntypedEventBus.register UntypedEventBus.unregister em c st
            ≠ OutOfFuel →
          do_call UntypedEventBus.register UntypedEventBus.unregister em' c st
          = do_call UntypedEventBus.register UntypedEventBus.unregister em c st)
    as Hc.
  { destruct c as [e h|e h|e d]; unfold do_call; [done..|apply Hem]. }
  destruct (do_call _ _ em c st) as [st1|x st1|] eqn:Hcall; [| |done]; intros Hrun;
    rewrite Hc by done; by apply IH.
Qed.

Lemma emit_more_fuel fuel e d st :
  UntypedEventBus.emit set_order body fuel e d st ≠ OutOfFuel →
  UntypedEventBus.emit set_order body (S fuel) e d st
  = UntypedEventBus.emit set_order body fuel e d st.
Proof.
  revert e d st. induction fuel as [|fuel IH]; intros e d st.
  - simpl. destruct (registry st !! e) as [[o s]|]; [|done].
    apply for_each_more_fuel. by intros h st1 [].
  - change (UntypedEventBus.emit set_order body (S (S fuel)) e d st)
      with (match registry st !! e with
            | None => Ok st
            | Some (o, s) =>
                for_each set_order
                  (UntypedEventBus.call_handler body
                     (UntypedEventBus.emit set_order body (S fuel)) d)
                  e o (size s) 0 (length (set_order s)) st
            end).
    change (UntypedEventBus.emit set_order body (S fuel) e d st)
      with (match registry st !! e with
            | None => Ok st
            | Some (o, s) =>
                for_each set_order
                  (UntypedEventBus.call_handler body
                     (UntypedEventBus.emit set_order body fuel) d)
                  e o (size s) 0 (length (set_order s)) st
            end).
    destruct (registry st !! e) as [[o s]|]; [|done].
    apply for_each_more_fuel. intros h st1.
    unfold UntypedEventBus.call_handler, invoke. intros Hrun.
    rewrite (exec_more_fuel (UntypedEventBus.emit set_order body fuel)
               (UntypedEventBus.emit set_order body (S fuel))); [done|by apply IH|].
    by destruct (exec _ _ _ _ _).
Qed.
End Fuel.

(** ** Emission and the registry *)

Section Frame.
Context {payload : Type}.
Variable set_order : gset hid → list hid.
Hypothesis set_order_perm : ∀ s, set_order s ≡ₚ elements s.
Implicit Types (st : state payload).

Lemma same_bus_log st0 (o : obs payload) st :
  same_bus st0 st → same_bus st0 (add_log o st).
Proof. done. Qed.

Lemma register_log st e h st' :
  UntypedEventBus.register e h st = Ok st' → log st' = log st.
Proof.
  unfold UntypedEventBus.register, setitem_new, getitem_add.
  destruct (negb _); [by intros [= <-]|].
  destruct (registry st !! e) as [[o s]|]; [|done]. by intros [= <-].
Qed.

Lemma unregister_log st e h st' :
  final (UntypedEventBus.unregister e h st) = Some st' → log st' = log st.
Proof.
  rewrite unregister_unfold.
  destruct (registry st !! e) as [[o s]|]; [|by intros [= <-]].
  destruct (decide (h ∈ s)); [|by intros [= <-]].
  destruct (decide (size (s ∖ {[h]}) = 0)); by intros [= <-].
Qed.

Lemma same_unless_mutated_refl st : same_unless_mutated st st.
Proof. exists []. split; [by rewrite (right_id_L [] (++))|done]. Qed.

Lemma same_unless_mutated_log st0 (o : obs payload) st :
  same_unless_mutated st0 st → same_unless_mutated st0 (add_log o st).
Proof.
  intros (l & Hl & Hsame). exists (l ++ [o]). split.
  - simpl. by rewrite Hl, (assoc_L (++)).
  - intros [Hno _]%Forall_app. by apply same_bus_log, Hsame.
Qed.

(** Once the log shows a mutation, nothing more is promised. *)
Lemma same_unless_mutated_after st0 st st' (o : obs payload) :
  same_unless_mutated st0 st → is_mutation o →
  log st' = log st ++ [o] → same_unless_mutated st0 st'.
Proof.
  intros (l & Hl & _) Ho Hlog. exists (l ++ [o]). split.
  - by rewrite Hlog, Hl, (assoc_L (++)).
  - intros [_ Hno]%Forall_app. exfalso.
    rewrite Forall_singleton in Hno. exact (Hno Ho).
Qed.

Lemma register_same_unless_mutated st0 e h :
  preserves (same_unless_mutated st0)
    (fun st => UntypedEventBus.register e h (add_log (Called (CRegister e h)) st)).
Proof.
  intros st Hst.
  destruct (register_total (add_log (Called (CRegister e h)) st) e h) as [st' Hreg].
  rewrite Hreg. apply (same_unless_mutated_after st0 st st' (Called (CRegister e h)));
    [done|done|]. by rewrite (register_log _ _ _ _ Hreg).
Qed.

Lemma unregister_same_unless_mutated st0 e h :
  preserves (same_unless_mutated st0)
    (fun st => UntypedEventBus.unregister e h (add_log (Called (CUnregister e h)) st)).
Proof.
  intros st Hst.
  pose proof (unregister_log (add_log (Called (CUnregister e h)) st) e h) as Hlog.
  destruct (UntypedEventBus.unregister _ _ _) as [st'|x st'|]; [| |done];
    apply (same_unless_mutated_after st0 st st' (Called (CUnregister e h)));
    try done; by apply Hlog.
Qed.

Lemma untyped_emit_same_unless_mutated body st0 fuel e d :
  preserves (same_unless_mutated st0) (UntypedEventBus.emit set_order body fuel e d).
Proof.
  apply (untyped_emit_preserves set_order (same_unless_mutated st0) (fun _ => True)).
  - apply same_unless_mutated_log.
  - intros. apply register_same_unless_mutated.
  - intros. apply unregister_same_unless_mutated.
  - intros. apply calls_in_any.
Qed.

Lemma typed_emit_same_unless_mutated body st0 fuel e d :
  preserves (same_unless_mutated st0) (TypedEventBus.emit set_order body fuel e d).
Proof.
  apply (typed_emit_preserves set_order (same_unless_mutated st0) (fun _ => True)).
  - apply same_unless_mutated_log.
  - intros. apply register_same_unless_mutated.
  - intros. apply unregister_same_unless_mutated.
  - intros. apply calls_in_any.
Qed.

Lemma same_unless_mutated_registry st st' l :
  same_unless_mutated st st' →
  log st' = log st ++ l → Forall (fun o => ¬ is_mutation o) l →
  registry st' = registry st.
Proof.
  intros (l' & Hl' & Hsame) Hl Hno. rewrite Hl' in Hl.
  apply app_inv_head in Hl. subst l'. by apply Hsame.
Qed.
End Frame.

(** C9.  Whether [emit(e, d)] returns or raises, if no handler called in
    the course of it has called [register] or [unregister] (the log shows
    no such call), the registry is afterwards as it was before, key by key;
    so in both classes. *)
Theorem emit_frames_registry {payload : Type}
    (set_order : gset hid → list hid)
    (ubody : hid → payload → prog payload)
    (tbody : hid → string → payload → prog payload)
    (fuel : nat) (st st' : state payload) (e : string) (d : payload)
    (l : list (obs payload)) :
  (final (UntypedEventBus.emit set_order ubody fuel e d st) = Some st' →
   log st' = log st ++ l →
   Forall (fun o => ¬ is_mutation o) l →
   registry st' = registry st)
  ∧ (final (TypedEventBus.emit set_order tbody fuel e d st) = Some st' →
     log st' = log st ++ l →
     Forall (fun o => ¬ is_mutation o) l →
     registry st' = registry st).
Proof.
  split; intros Hfinal Hlog Hno.
  - pose proof (untyped_emit_same_unless_mutated set_order ubody st fuel e d st
                  (same_unless_mutated_refl st)) as Hsame.
    destruct (UntypedEventBus.emit _ _ _ _ _ _) as [st1|x st1|];
      simpl in Hfinal; [| |done]; injection Hfinal as <-;
      by apply (same_unless_mutated_registry st st1 l).
  - pose proof (typed_emit_same_unless_mutated set_order tbody st fuel e d st
                  (same_unless_mutated_refl st)) as Hsame.
    destruct (TypedEventBus.emit _ _ _ _ _ _) as [st1|x st1|];
      simpl in Hfinal; [| |done]; injection Hfinal as <-;
      by apply (same_unless_mutated_registry st st1 l).
Qed.

(** ** Emission from within a handler *)

Section Nested.
Context {payload : Type}.
Variable set_order : gset hid → list hid.
Variable body : hid → payload → prog payload.
Implicit Types (st : state payload) (l : list (obs payload)).

Lemma preserves_ok (I : state payload → Prop) (m : M payload) st st' :
  preserves I m → I st → m st = Ok st' → I st'.
Proof. intros Hm HI Hrun. specialize (Hm st HI). by rewrite Hrun in Hm. Qed.

Lemma log_from_log l0 (o : obs payload) st :
  log_from l0 st → log_from l0 (add_log o st).
Proof. unfold log_from. simpl. apply prefix_app_r. Qed.

Lemma register_log_from l0 e h :
  preserves (log_from l0) (UntypedEventBus.register (payload:=payload) e h).
Proof.
  intros st Hl. unfold UntypedEventBus.register, setitem_new, getitem_add.
  destruct (negb _); [done|].
  by destruct (registry st !! e) as [[o s]|].
Qed.

Lemma unregister_log_from l0 e h :
  preserves (log_from l0) (UntypedEventBus.unregister (payload:=payload) e h).
Proof.
  intros st Hl. rewrite unregister_unfold.
  destruct (registry st !! e) as [[o s]|]; [|done].
  destruct (decide (h ∈ s)); [|done].
  by destruct (decide (size (s ∖ {[h]}) = 0)).
Qed.

Lemma untyped_emit_log_from l0 fuel e d :
  preserves (log_from l0) (UntypedEventBus.emit set_order body fuel e d).
Proof.
  apply (untyped_emit_preserves set_order (log_from l0) (fun _ => True)).
  - apply log_from_log.
  - intros. apply preserves_after_log; [apply log_from_log|apply register_log_from].
  - intros. apply preserves_after_log; [apply log_from_log|apply unregister_log_from].
  - intros. apply calls_in_any.
Qed.

Lemma untyped_exec_log_from l0 fuel p :
  preserves (log_from l0)
    (exec UntypedEventBus.register UntypedEventBus.unregister
       (UntypedEventBus.emit set_order body fuel) p).
Proof.
  apply (preserves_exec _ _ _ (log_from l0) (fun _ => True)); [|apply calls_in_any].
  intros [e h|e h|e d] _; unfold do_call;
    (apply preserves_after_log; [apply log_from_log|]).
  - apply register_log_from.
  - apply unregister_log_from.
  - apply untyped_emit_log_from.
Qed.

Lemma untyped_loop_log_from l0 fuel d e o n pos left :
  preserves (log_from l0)
    (for_each set_order
       (UntypedEventBus.call_handler body
          (UntypedEventBus.emit set_order body fuel) d)
       e o n pos left).
Proof.
  apply (preserves_dispatch set_order (log_from l0) (fun _ => True)).
  - apply log_from_log.
  - intros. apply preserves_after_log; [apply log_from_log|apply register_log_from].
  - intros. apply preserves_after_log; [apply log_from_log|apply unregister_log_from].
  - intros. apply untyped_emit_log_from.
  - intros. apply calls_in_any.
Qed.

Lemma call_handler_ok_inv fuel d g st st2 :
  UntypedEventBus.call_handler body
    (UntypedEventBus.emit set_order body fuel) d g st = Ok st2 →
  ∃ st2',
    exec UntypedEventBus.register UntypedEventBus.unregister
      (UntypedEventBus.emit set_order body fuel) (body g d)
      (add_log (Invoked g (Args1 d)) st) = Ok st2'
    ∧ st2 = add_log (Returned g) st2'.
Proof.
  unfold UntypedEventBus.call_handler, invoke.
  destruct (exec _ _ _ _ _) as [st2'|x st2'|]; [|done..].
  intros [= <-]. by exists st2'.
Qed.

(** What a handler does leaves the set registered for [e] as it is, unless
    the log shows a call of [register] or [unregister] for [e]. *)
Lemma same_set_unless_mutated_refl e st : same_set_unless_mutated e st st.
Proof. exists []. split; [by rewrite (right_id_L [] (++))|done]. Qed.

Lemma same_set_unless_mutated_log e st0 (o : obs payload) st :
  same_set_unless_mutated e st0 st → same_set_unless_mutated e st0 (add_log o st).
Proof.
  intros (l0 & Hl & Hsame). exists (l0 ++ [o]). split.
  - simpl. by rewrite Hl, (assoc_L (++)).
  - intros [Hno _]%Forall_app. simpl. by apply Hsame.
Qed.


(** The log between two states, cut where a state in between was reached. *)
Lemma same_set_unless_mutated_cut e st sa st' l :
  same_set_unless_mutated e st sa → same_set_unless_mutated e sa st' →
  log st' = log st ++ l → Forall (fun o => ¬ is_mutation_of e o) l →
  ∃ la lb,
    l = la ++ lb ∧ log sa = log st ++ la ∧ log st' = log sa ++ lb
    ∧ registry sa !! e = registry st !! e
    ∧ Forall (fun o => ¬ is_mutation_of e o) la
    ∧ Forall (fun o => ¬ is_mutation_of e o) lb.
Proof.
  intros (la & Hla & Ha) (lb & Hlb & Hb) Hl Hno. exists la, lb.
  assert (l = la ++ lb) as ->.
  { apply (app_inv_head (log st)). by rewrite <- Hl, Hlb, Hla, (assoc_L (++)). }
  apply Forall_app in Hno as [Hnoa Hnob]. split_and!; auto.
Qed.

Lemma unregister_registry_other st st' e h e' :
  final (UntypedEventBus.unregister e h st) = Some st' → e' ≠ e →
  registry st' !! e' = registry st !! e'.
Proof.
  rewrite unregister_unfold. intros Hun Hne.
  destruct (registry st !! e) as [[o s]|]; [|by injection Hun as <-].
  destruct (decide (h ∈ s)); [|by injection Hun as <-].
  destruct (decide (size (s ∖ {[h]}) = 0)); injection Hun as <-; simpl.
  - by rewrite lookup_delete_ne.
  - by rewrite lookup_insert_ne.
Qed.

Lemma register_same_set_unless_mutated e st0 e' h :
  preserves (same_set_unless_mutated e st0)
    (fun st => UntypedEventBus.register e' h (add_log (Called (CRegister e' h)) st)).
Proof.
  intros st (l0 & Hl & Hsame).
  destruct (register_total (add_log (Called (CRegister e' h)) st) e' h) as [st' Hreg].
  rewrite Hreg. exists (l0 ++ [Called (CRegister e' h)]). split.
  - rewrite (register_log _ _ _ _ Hreg). simpl. by rewrite Hl, (assoc_L (++)).
  - intros [Hno Hc]%Forall_app. rewrite Forall_singleton in Hc. simpl in Hc.
    rewrite (register_registry_other _ st' e' h e Hreg) by (intros ->; by apply Hc).
    by apply Hsame.
Qed.

Lemma unregister_same_set_unless_mutated e st0 e' h :
  preserves (same_set_unless_mutated e st0)
    (fun st => UntypedEventBus.unregister e' h
                 (add_log (Called (CUnregister e' h)) st)).
Proof.
  intros st (l0 & Hl & Hsame).
  pose proof (unregister_log (add_log (Called (CUnregister e' h)) st) e' h) as Hlog.
  pose proof (fun st' => unregister_registry_other
                           (add_log (Called (CUnregister e' h)) st) st' e' h e)
    as Hother.
  destruct (UntypedEventBus.unregister _ _ _) as [st'|x st'|]; [| |done];
    (exists (l0 ++ [Called (CUnregister e' h)]); split;
     [rewrite (Hlog st') by done; simpl; by rewrite Hl, (assoc_L (++))|]);
    intros [Hno Hc]%Forall_app; rewrite Forall_singleton in Hc; simpl in Hc;
    rewrite (Hother st') by (done || (intros ->; by apply Hc));
    by apply Hsame.
Qed.

Lemma untyped_emit_same_set_unless_mutated e0 st0 fuel e d :
  preserves (same_set_unless_mutated e0 st0)
    (UntypedEventBus.emit set_order body fuel e d).
Proof.
  apply (untyped_emit_preserves set_order (same_set_unless_mutated e0 st0)
           (fun _ => True)).
  - apply same_set_unless_mutated_log.
  - intros. apply register_same_set_unless_mutated.
  - intros. apply unregister_same_set_unless_mutated.
  - intros. apply calls_in_any.
Qed.

Lemma untyped_do_call_same_set_unless_mutated e0 st0 fuel c :
  preserves (same_set_unless_mutated e0 st0)
    (do_call UntypedEventBus.register UntypedEventBus.unregister
       (UntypedEventBus.emit set_order body fuel) c).
Proof.
  destruct c as [e h|e h|e d]; unfold do_call.
  - apply register_same_set_unless_mutated.
  - apply unregister_same_set_unless_mutated.
  - apply preserves_after_log;
      [apply same_set_unless_mutated_log|apply untyped_emit_same_set_unless_mutated].
Qed.

Lemma untyped_exec_same_set_unless_mutated e0 st0 fuel p :
  preserves (same_set_unless_mutated e0 st0)
    (exec UntypedEventBus.register UntypedEventBus.unregister
       (UntypedEventBus.emit set_order body fuel) p).
Proof.
  apply (preserves_exec _ _ _ (same_set_unless_mutated e0 st0) (fun _ => True));
    [|apply calls_in_any].
  intros c _. apply untyped_do_call_same_set_unless_mutated.
Qed.

Lemma call_handler_same_set_unless_mutated fuel d e0 st0 h :
  preserves (same_set_unless_mutated e0 st0)
    (UntypedEventBus.call_handler body
       (UntypedEventBus.emit set_order body fuel) d h).
Proof.
  apply (preserves_invoke _ _ _ (same_set_unless_mutated e0 st0) (fun _ => True));
    [apply same_set_unless_mutated_log| |apply calls_in_any].
  intros c _. apply untyped_do_call_same_set_unless_mutated.
Qed.


(** A body that has come to its end without the log showing a call of the
    bus has done nothing. *)
Lemma exec_no_bus_call fuel p st st' l :
  exec UntypedEventBus.register UntypedEventBus.unregister
    (UntypedEventBus.emit set_order body fuel) p st = Ok st' →
  log st' = log st ++ l → Forall (fun o => ¬ is_bus_call o) l →
  st' = st.
Proof.
  destruct p as [|y|c k]; simpl; [by intros [= <-]|done|].
  unfold try_catch, do_call. intros Hrun Hl Hno. exfalso.
  assert (log_from (log (add_log (Called c) st)) st') as [l' Hl'].
  { destruct c as [e h|e h|e d].
    - pose proof (register_log_from (log (add_log (Called (CRegister e h)) st))
                    e h _ (reflexivity _)) as Hop.
      destruct (UntypedEventBus.register e h _) as [s2|y s2|]; [| |done];
        exact (preserves_ok _ _ s2 st' (untyped_exec_log_from _ fuel _) Hop Hrun).
    - pose proof (unregister_log_from (log (add_log (Called (CUnregister e h)) st))
                    e h _ (reflexivity _)) as Hop.
      destruct (UntypedEventBus.unregister e h _) as [s2|y s2|]; [| |done];
        exact (preserves_ok _ _ s2 st' (untyped_exec_log_from _ fuel _) Hop Hrun).
    - pose proof (untyped_emit_log_from (log (add_log (Called (CEmit e d)) st))
                    fuel e d _ (reflexivity _)) as Hop.
      destruct (UntypedEventBus.emit set_order body fuel e d _) as [s2|y s2|];
        [| |done];
        exact (preserves_ok _ _ s2 st' (untyped_exec_log_from _ fuel _) Hop Hrun). }
  simpl in Hl'. rewrite Hl, <- (assoc_L (++)) in Hl'.
  apply app_inv_head in Hl'. subst l.
  apply Forall_cons in Hno as [Hc _]. by apply Hc.
Qed.

(** What the log shows of a call that has returned. *)
Lemma call_handler_ok_log fuel d g st st2 :
  UntypedEventBus.call_handler body
    (UntypedEventBus.emit set_order body fuel) d g st = Ok st2 →
  ∃ q, log st2 = log st ++ Invoked g (Args1 d) :: q ++ [Returned g].
Proof.
  intros (st2' & Hexec & ->)%call_handler_ok_inv.
  destruct (preserves_ok _ _ _ st2'
              (untyped_exec_log_from (log (add_log (Invoked g (Args1 d)) st))
                 fuel (body g d))
              (reflexivity _) Hexec) as [q Hq].
  exists q. simpl in *. rewrite Hq.
  repeat (rewrite <- (assoc_L (++)); simpl). done.
Qed.
End Nested.

(** ** An emission that returns *)

(** Calls that leave the set registered for an event as it is unless the
    log shows a call of [register] or [unregister] for that event: as long
    as the log shows none, the loop over the set calls its entries in
    turn. *)
Section Turns.
Context {payload : Type}.
Variable order : gset hid → list hid.
Variable f : hid → M payload.
Hypothesis f_same_set_unless_mutated :
  ∀ e st0 h, preserves (same_set_unless_mutated e st0) (f h).
Implicit Types (st : state payload) (hs : list hid).

Lemma calls_in_turn_app hs1 hs2 st st' :
  calls_in_turn f (hs1 ++ hs2) st st' ↔
  ∃ st1, calls_in_turn f hs1 st st1 ∧ calls_in_turn f hs2 st1 st'.
Proof.
  revert st. induction hs1 as [|h hs1 IH]; intros st; simpl.
  - split; [intros H; by exists st|by intros (st1 & -> & H)].
  - split.
    + intros (st1 & Hh & H). apply IH in H as (st2 & H1 & H2).
      exists st2. split; [by exists st1|done].
    + intros (st2 & (st1 & Hh & H1) & H2). exists st1. split; [done|].
      apply IH. by exists st2.
Qed.

Lemma calls_in_turn_elem pre g post st st' :
  calls_in_turn f (pre ++ g :: post) st st' →
  ∃ sa sb, calls_in_turn f pre st sa ∧ f g sa = Ok sb ∧ calls_in_turn f post sb st'.
Proof.
  intros (sa & Hpre & (sb & Hg & Hpost))%calls_in_turn_app. by exists sa, sb.
Qed.

Lemma calls_in_turn_same_set_unless_mutated e st0 hs st st' :
  same_set_unless_mutated e st0 st → calls_in_turn f hs st st' →
  same_set_unless_mutated e st0 st'.
Proof using f_same_set_unless_mutated.
  revert st. induction hs as [|h hs IH]; simpl; intros st H0.
  - by intros ->.
  - intros (st1 & Hh & H). apply (IH st1); [|done].
    pose proof (f_same_set_unless_mutated e st0 h st H0) as Hp. by rewrite Hh in Hp.
Qed.

Lemma for_each_same_set_unless_mutated e0 st0 e o n pos left :
  preserves (same_set_unless_mutated e0 st0) (for_each order f e o n pos left).
Proof using f_same_set_unless_mutated.
  apply preserves_for_each. intros h st H _. by apply f_same_set_unless_mutated.
Qed.

(** A loop that has returned, the log showing no call of [register] or
    [unregister] for the event, has called the entries of the set in
    turn. *)
Lemma for_each_ok_calls_in_turn e o s pre hs st st' l :
  registry st !! e = Some (o, s) → order s = pre ++ hs →
  for_each order f e o (size s) (length pre) (length hs) st = Ok st' →
  log st' = log st ++ l → Forall (fun o => ¬ is_mutation_of e o) l →
  calls_in_turn f hs st st'.
Proof using f_same_set_unless_mutated.
  revert pre st l. induction hs as [|h hs IH]; intros pre st l He Horder Hrun Hl Hno.
  - change (length []) with 0 in Hrun.
    rewrite (for_each_end order f e o s _ st He) in Hrun. by injection Hrun as <-.
  - change (length (h :: hs)) with (S (length hs)) in Hrun.
    rewrite (for_each_step order f e o s (length pre) _ h st He) in Hrun
      by (rewrite Horder; by apply list_lookup_middle).
    unfold seq in Hrun. destruct (f h st) as [sa|x sa|] eqn:Hh; [|done..].
    pose proof (f_same_set_unless_mutated e st h st
                  (same_set_unless_mutated_refl e st)) as H1.
    rewrite Hh in H1.
    pose proof (for_each_same_set_unless_mutated e sa e o (size s) (S (length pre))
                  (length hs) sa (same_set_unless_mutated_refl e sa)) as H2.
    rewrite Hrun in H2.
    destruct (same_set_unless_mutated_cut e st sa st' l H1 H2 Hl Hno)
      as (la & lb & -> & Hla & Hlb & Hr & Hnoa & Hnob).
    exists sa. split; [done|].
    apply (IH (pre ++ [h]) sa lb); [by rewrite Hr|by rewrite <- (assoc_L (++))| |done..].
    by rewrite length_app, Nat.add_1_r.
Qed.

(** Conversely, calls made in turn without the log showing a call of
    [register] or [unregister] for the event are the steps of the loop. *)
Lemma calls_in_turn_for_each e o s pre hs post left st st1 l :
  registry st !! e = Some (o, s) → order s = pre ++ hs ++ post →
  calls_in_turn f hs st st1 →
  log st1 = log st ++ l → Forall (fun o => ¬ is_mutation_of e o) l →
  for_each order f e o (size s) (length pre) (length hs + left) st
  = for_each order f e o (size s) (length pre + length hs) left st1
  ∧ registry st1 !! e = Some (o, s).
Proof using f_same_set_unless_mutated.
  revert pre st l. induction hs as [|h hs IH]; intros pre st l He Horder Hturn Hl Hno.
  - simpl in Hturn. subst st1. simpl. by rewrite Nat.add_0_r.
  - destruct Hturn as (sa & Hh & Hturn).
    change (length (h :: hs) + left) with (S (length hs + left)).
    rewrite (for_each_step order f e o s (length pre) _ h st He)
      by (rewrite Horder; by apply list_lookup_middle).
    unfold seq. rewrite Hh.
    pose proof (f_same_set_unless_mutated e st h st
                  (same_set_unless_mutated_refl e st)) as H1.
    rewrite Hh in H1.
    pose proof (calls_in_turn_same_set_unless_mutated e sa hs sa st1
                  (same_set_unless_mutated_refl e sa) Hturn) as H2.
    destruct (same_set_unless_mutated_cut e st sa st1 l H1 H2 Hl Hno)
      as (la & lb & -> & Hla & Hlb & Hr & Hnoa & Hnob).
    destruct (IH (pre ++ [h]) sa lb) as [Hrun Hr1];
      [by rewrite Hr|by rewrite <- (assoc_L (++))|done..|].
    rewrite length_app, Nat.add_1_r in Hrun. simpl in Hrun. split; [|done].
    rewrite Hrun. f_equal. simpl. lia.
Qed.
End Turns.

Section Returning.
Context {payload : Type}.
Variable set_order : gset hid → list hid.
Variable body : hid → payload → prog payload.
Implicit Types (st : state payload) (l : list (obs payload)).

(** An emission that has returned, the log showing no call of [register]
    or [unregister] for its event, has called the entries of the set it
    found, in turn. *)
Lemma emit_ok_calls_in_turn fuel e d st st' l o s :
  registry st !! e = Some (o, s) →
  UntypedEventBus.emit set_order body (S fuel) e d st = Ok st' →
  log st' = log st ++ l → Forall (fun o => ¬ is_mutation_of e o) l →
  calls_in_turn
    (UntypedEventBus.call_handler body (UntypedEventBus.emit set_order body fuel) d)
    (set_order s) st st'.
Proof.
  intros He Hrun Hl Hno. simpl in Hrun. rewrite He in Hrun.
  apply (for_each_ok_calls_in_turn set_order _
           (call_handler_same_set_unless_mutated set_order body fuel d)
           e o s [] (set_order s) st st' l); done.
Qed.


(** When the log shows no call of the bus at all, it shows the handlers
    called in turn, each returning at once. *)
Lemma calls_in_turn_no_bus_call fuel d hs st st' l :
  calls_in_turn
    (UntypedEventBus.call_handler body (UntypedEventBus.emit set_order body fuel) d)
    hs st st' →
  log st' = log st ++ l → Forall (fun o => ¬ is_bus_call o) l →
  l = calls_and_returns (Args1 d) hs.
Proof.
  revert st l. induction hs as [|h hs IH]; simpl; intros st l Hturn Hl Hno.
  - subst st'. apply (app_inv_head (log st)). by rewrite <- Hl, (right_id_L [] (++)).
  - destruct Hturn as (sa & Hcall & Hturn).
    pose proof (call_handler_same_set_unless_mutated set_order body fuel d) as Hf.
    destruct (calls_in_turn_same_set_unless_mutated _ Hf EmptyString sa hs sa st'
                (same_set_unless_mutated_refl EmptyString sa) Hturn)
      as (lb & Hlb & _).
    destruct (call_handler_ok_inv set_order body fuel d h st sa Hcall)
      as (sa' & Hexec & ->).
    destruct (preserves_ok _ _ _ sa'
                (untyped_exec_log_from set_order body
                   (log (add_log (Invoked h (Args1 d)) st)) fuel (body h d))
                (reflexivity _) Hexec) as [q Hq].
    simpl in Hlb, Hq.
    assert (l = Invoked h (Args1 d) :: q ++ Returned h :: lb) as ->.
    { apply (app_inv_head (log st)). rewrite <- Hl, Hlb, Hq.
      repeat (rewrite <- (assoc_L (++)); simpl). done. }
    apply Forall_cons in Hno as [_ Hno]. apply Forall_app in Hno as [Hnoq Hno].
    apply Forall_cons in Hno as [_ Hnob].
    pose proof (exec_no_bus_call set_order body fuel (body h d) _ sa' q
                  Hexec Hq Hnoq) as ->.
    assert (q = []) as ->.
    { apply (app_inv_head (log st ++ [Invoked h (Args1 d)])).
      by rewrite <- Hq, (right_id_L [] (++)). }
    simpl. do 2 f_equal. by apply (IH _ lb Hturn).
Qed.
End Returning.

(** ** Registering twice *)

(** C3.  [register(e, h)] returns, for every bus, event name and handler;
    a second [register(e, h)] returns too and leaves the bus exactly as the
    first one left it.  A following [emit(e, d)] that returns, its log
    showing no call of [register] or [unregister] for [e] by a handler, has
    called the handlers registered for [e] in turn, each call returning, and
    [h] is one of them, once: [emit] itself has called [h] with [d] exactly
    once, whatever the handlers do besides (they may emit).  When the log
    shows no call of the bus at all, it shows one call of [h] and no more.
    (When an earlier handler raises, or takes [h] off the event, [h] is not
    called: see the counterexample.) *)
Theorem register_twice_invoked_once {payload : Type}
    (set_order : gset hid → list hid) (body : hid → payload → prog payload)
    (fuel : nat) (st : state payload) (e : string) (h : hid) (d : payload) :
  (∀ s, set_order s ≡ₚ elements s) →
  ∃ st1,
    UntypedEventBus.register e h st = Ok st1
    ∧ UntypedEventBus.register e h st1 = Ok st1
    ∧ ∀ st2 l,
        UntypedEventBus.emit set_order body (S fuel) e d st1 = Ok st2 →
        log st2 = log st1 ++ l →
        Forall (fun o => ¬ is_mutation_of e o) l →
        (∃ pre post,
           (∀ g, g ∈ pre ++ h :: post ↔ g ∈ handlers_of st1 e)
           ∧ (h ∉ pre) ∧ (h ∉ post)
           ∧ calls_in_turn
               (UntypedEventBus.call_handler body
                  (UntypedEventBus.emit set_order body fuel) d)
               (pre ++ h :: post) st1 st2)
        ∧ Invoked h (Args1 d) ∈ l
        ∧ (Forall (fun o => ¬ is_bus_call o) l → calls_of h l = 1).
Proof.
  intros Hperm. destruct (register_total st e h) as [st1 Hreg].
  exists st1. split; [done|].
  pose proof (register_handlers_of st st1 e h Hreg) as Hs1.
  assert (handlers_of st1 e = match registry st1 !! e with
                              | Some (_, s) => s
                              | None => ∅
                              end) as Hhs by done.
  destruct (registry st1 !! e) as [[o1 s1]|] eqn:He1; cycle 1.
  { exfalso. apply (not_elem_of_empty (C:=gset positive) h).
    rewrite <- Hhs, Hs1. apply elem_of_union_l. by apply elem_of_singleton. }
  assert (h ∈ s1) as Hh.
  { rewrite <- Hhs, Hs1. apply elem_of_union_l. by apply elem_of_singleton. }
  split.
  { rewrite (register_add st1 e h o1 s1 He1)
      by (intros ->; by apply not_elem_of_empty in Hh).
    f_equal. assert ({[h]} ∪ s1 = s1) as ->.
    { apply subseteq_union_1_L. by apply singleton_subseteq_l. }
    rewrite insert_id by done. by destruct st1. }
  intros st2 l Hrun Hl Hno.
  pose proof (NoDup_set_order set_order Hperm s1) as Hnd.
  pose proof Hh as Hin. apply (elem_of_set_order set_order Hperm) in Hin.
  destruct (list_elem_of_split _ _ Hin) as (pre & post & Horder).
  pose proof (emit_ok_calls_in_turn set_order body fuel e d st1 st2 l o1 s1
                He1 Hrun Hl Hno) as Hturn.
  split_and!.
  - exists pre, post. rewrite <- Horder, Hhs.
    split; [intros g; by apply elem_of_set_order|].
    rewrite Horder in Hnd. apply NoDup_app in Hnd as (_ & Hpre & Hpost).
    apply NoDup_cons in Hpost as [Hpost _].
    split_and!; [|done..]. intros Hp. apply (Hpre h Hp). by left.
  - rewrite Horder in Hturn.
    apply (calls_in_turn_elem _ pre h post) in Hturn as (sa & sb & Hpre & Hcall & Hpost).
    pose proof (call_handler_same_set_unless_mutated set_order body fuel d) as Hf.
    destruct (calls_in_turn_same_set_unless_mutated _ Hf e st1 pre st1 sa
                (same_set_unless_mutated_refl e st1) Hpre) as (la & Hla & _).
    destruct (calls_in_turn_same_set_unless_mutated _ Hf e sb post sb st2
                (same_set_unless_mutated_refl e sb) Hpost) as (lb & Hlb & _).
    destruct (call_handler_ok_log set_order body fuel d h sa sb Hcall) as [q Hq].
    assert (l = la ++ Invoked h (Args1 d) :: q ++ Returned h :: lb) as ->.
    { apply (app_inv_head (log st1)). rewrite <- Hl, Hlb, Hq, Hla.
      repeat (rewrite <- (assoc_L (++)); simpl). done. }
    apply elem_of_app. right. by left.
  - intros Hquiet.
    rewrite (calls_in_turn_no_bus_call set_order body fuel d (set_order s1)
               st1 st2 l Hturn Hl Hquiet).
    by apply calls_of_returning_once.
Qed.

(** ** A handler that raises *)

(** C6.  Let [emit(e, d)] find for [e] a set that is traversed in the order
    [pre ++ h :: post].  If the handlers of [pre], called in turn, all
    return, the log showing no call of [register] or [unregister] for [e] by
    them, and leave the bus in [st1], and the call of [h] in [st1] raises
    [x] and leaves the bus in [st2], then [emit(e, d)] raises [x] and leaves
    the bus in [st2]: the exception is not caught, and nothing happens after
    it, so no handler of [post] is called. *)
Theorem emit_propagates_handler_exception {payload : Type}
    (set_order : gset hid → list hid) (body : hid → payload → prog payload)
    (fuel : nat) (st st1 st2 : state payload) (e : string) (d : payload)
    (o : oid) (s : gset hid) (pre post : list hid) (h : hid) (x : exn)
    (l : list (obs payload)) :
  let call_handler :=
    UntypedEventBus.call_handler body (UntypedEventBus.emit set_order body fuel) d in
  registry st !! e = Some (o, s) →
  set_order s = pre ++ h :: post →
  calls_in_turn call_handler pre st st1 →
  log st1 = log st ++ l →
  Forall (fun o => ¬ is_mutation_of e o) l →
  call_handler h st1 = Exn x st2 →
  UntypedEventBus.emit set_order body (S fuel) e d st = Exn x st2.
Proof.
  intros call_handler He Horder Hpre Hl Hno Hraise. simpl. rewrite He.
  fold call_handler.
  destruct (calls_in_turn_for_each set_order call_handler
              (call_handler_same_set_unless_mutated set_order body fuel d)
              e o s [] pre (h :: post) (S (length post)) st st1 l He Horder Hpre Hl Hno)
    as [Hrun He1].
  rewrite Horder, length_app. change (length (h :: post)) with (S (length post)).
  change (length []) with 0 in Hrun. rewrite Hrun.
  rewrite (for_each_step set_order call_handler e o s (0 + length pre)
             (length post) h st1 He1)
    by (rewrite Horder; by apply list_lookup_middle).
  unfold seq. by rewrite Hraise.
Qed.

(** ** Emission from within a handler *)


(** ** The typed bus and the untyped bus *)

Section Equivalence.
Context {payload : Type}.
Variable set_order : gset hid → list hid.
Implicit Types (st : state payload).

Lemma untyped_view_init :
  untyped_view (@TypedEventBus.init payload) = UntypedEventBus.init.
Proof. reflexivity. Qed.

Lemma untyped_view_log (o : obs payload) st :
  untyped_view (add_log o st) = add_log (erase_obs o) (untyped_view st).
Proof. unfold untyped_view, add_log. simpl. by rewrite map_app. Qed.

Lemma register_view e h st :
  UntypedEventBus.register e h (untyped_view st)
  = untyped_result (TypedEventBus.register e h st).
Proof.
  unfold UntypedEventBus.register, TypedEventBus.register,
    setitem_new, getitem_add. simpl.
  destruct (negb _); [done|].
  by destruct (registry st !! e) as [[o s]|].
Qed.

Lemma unregister_view e h st :
  UntypedEventBus.unregister e h (untyped_view st)
  = untyped_result (TypedEventBus.unregister e h st).
Proof.
  change (TypedEventBus.unregister e h st) with (UntypedEventBus.unregister e h st).
  rewrite (unregister_unfold (untyped_view st)), (unregister_unfold st). simpl.
  destruct (registry st !! e) as [[o s]|]; [|done].
  destruct (decide (h ∈ s)); [|done].
  by destruct (decide (size (s ∖ {[h]}) = 0)).
Qed.

Lemma for_each_view (fu ft : hid → M payload) e o n pos left st :
  (∀ h st1, fu h (untyped_view st1) = untyped_result (ft h st1)) →
  for_each set_order fu e o n pos left (untyped_view st)
  = untyped_result (for_each set_order ft e o n pos left st).
Proof.
  intros Hf. revert pos st. induction left as [|left IH]; intros pos st; simpl.
  - change (live_size e o (untyped_view st)) with (live_size e o st).
    by destruct (decide _).
  - change (live_size e o (untyped_view st)) with (live_size e o st).
    destruct (decide _); [|done].
    change (live_entries set_order e o (untyped_view st))
      with (live_entries set_order e o st).
    destruct (live_entries set_order e o st !! pos) as [h|]; [|done].
    unfold seq. rewrite (Hf h st).
    destruct (ft h st) as [st1|x st1|]; simpl; [|done..]. apply IH.
Qed.

Lemma exec_view (emit_u emit_t : string → payload → M payload) p st :
  (∀ e d st1, emit_u e d (untyped_view st1) = untyped_result (emit_t e d st1)) →
  exec UntypedEventBus.register UntypedEventBus.unregister emit_u p (untyped_view st)
  = untyped_result
      (exec TypedEventBus.register TypedEventBus.unregister emit_t p st).
Proof.
  intros Hemit. revert st.
  induction p as [|x|c k IH]; intros st; simpl; [done..|].
  unfold try_catch.
  assert (do_call UntypedEventBus.register UntypedEventBus.unregister emit_u c
            (untyped_view st)
          = untyped_result
              (do_call TypedEventBus.register TypedEventBus.unregister emit_t c st))
    as ->.
  { unfold do_call.
    change (add_log (Called c) (untyped_view st))
      with (add_log (erase_obs (Called c)) (untyped_view st)).
    rewrite <- untyped_view_log.
    destruct c as [e h|e h|e d];
      [apply register_view|apply unregister_view|apply Hemit]. }
  destruct (do_call _ _ _ _ _) as [st1|x st1|]; simpl; [apply IH..|done].
Qed.

Lemma invoke_view (emit_u emit_t : string → payload → M payload) h e d p st :
  (∀ e d st1, emit_u e d (untyped_view st1) = untyped_result (emit_t e d st1)) →
  invoke UntypedEventBus.register UntypedEventBus.unregister emit_u
    h (Args1 d) p (untyped_view st)
  = untyped_result
      (invoke TypedEventBus.register TypedEventBus.unregister emit_t
         h (Args2 e d) p st).
Proof.
  intros Hemit. unfold invoke.
  change (add_log (Invoked h (Args1 d)) (untyped_view st))
    with (add_log (erase_obs (Invoked h (Args2 e d))) (untyped_view st)).
  rewrite <- untyped_view_log, (exec_view emit_u emit_t) by done.
  destruct (exec _ _ _ _ _) as [st1|x st1|]; simpl; [|done..].
  by rewrite untyped_view_log.
Qed.

Variable ubody : hid → payload → prog payload.
Variable tbody : hid → string → payload → prog payload.
Hypothesis same_body : ∀ h e d, tbody h e d = ubody h d.

Lemma emit_view fuel e d st :
  UntypedEventBus.emit set_order ubody fuel e d (untyped_view st)
  = untyped_result (TypedEventBus.emit set_order tbody fuel e d st).
Proof using same_body.
  revert e d st. induction fuel as [|fuel IH]; intros e d st; simpl;
    (destruct (registry st !! e) as [[o s]|]; [|done]);
    apply for_each_view; intros h st1; [done|].
  unfold UntypedEventBus.call_handler, TypedEventBus.call_handler.
  rewrite same_body. by apply invoke_view.
Qed.

Lemma run_op_view fuel c st :
  UntypedEventBus.run_op set_order ubody fuel c (untyped_view st)
  = untyped_result (TypedEventBus.run_op set_order tbody fuel c st).
Proof using same_body.
  destruct c as [e h|e h|e d]; simpl;
    [apply register_view|apply unregister_view|apply emit_view].
Qed.

Lemma run_ops_view fuel cs st :
  UntypedEventBus.run_ops set_order ubody fuel cs (untyped_view st)
  = untyped_view <$> TypedEventBus.run_ops set_order tbody fuel cs st.
Proof using same_body.
  revert st. induction cs as [|c cs IH]; intros st; simpl; [done|].
  rewrite run_op_view.
  destruct (TypedEventBus.run_op _ _ _ _ _) as [st1|x st1|]; simpl;
    [apply IH..|done].
Qed.
End Equivalence.

Section Registrations.
Context {payload : Type}.
Variable set_order : gset hid → list hid.
Variable ubody : hid → payload → prog payload.
Variable tbody : hid → string → payload → prog payload.

(** Without [emit], the bodies of the handlers play no part. *)
Lemma run_ops_registrations_view fuel cs (st : state payload) :
  Forall is_registration cs →
  UntypedEventBus.run_ops set_order ubody fuel cs (untyped_view st)
  = untyped_view <$> TypedEventBus.run_ops set_order tbody fuel cs st.
Proof.
  intros Hcs. revert st. induction Hcs as [|c cs Hc Hcs IH]; intros st; simpl; [done|].
  assert (UntypedEventBus.run_op set_order ubody fuel c (untyped_view st)
          = untyped_result (TypedEventBus.run_op set_order tbody fuel c st)) as ->.
  { destruct c as [e h|e h|e d]; simpl;
      [apply register_view|apply unregister_view|done]. }
  destruct (TypedEventBus.run_op _ _ _ _ _) as [st1|x st1|]; simpl;
    [apply IH..|done].
Qed.
End Registrations.

(** C10.  Take the same calls on a new typed bus and on a new untyped bus,
    either [register] and [unregister] calls only, or any calls when each
    handler does with [(event_name, data)] in the typed bus what it does
    with [(data)] in the untyped one.  Then one run ends if and only if the
    other does, and they end with the same registry (keys and sets) and the
    same handler calls in the same order, each call [h(event_name, data)] of
    the typed bus being the call [h(data)] of the untyped one.  And for
    handlers that return at once, [emit(e, d)] calls the same handlers in
    both buses, with [(e, d)] in the typed one and with [(d)] in the untyped
    one. *)
Theorem typed_untyped_equivalent {payload : Type}
    (set_order : gset hid → list hid)
    (ubody : hid → payload → prog payload)
    (tbody : hid → string → payload → prog payload)
    (fuel : nat) (cs : list (op payload)) :
  (Forall is_registration cs ∨ (∀ h e d, tbody h e d = ubody h d) →
   UntypedEventBus.run_ops set_order ubody fuel cs UntypedEventBus.init
   = untyped_view
       <$> TypedEventBus.run_ops set_order tbody fuel cs TypedEventBus.init
   ∧ ∀ st_t,
       TypedEventBus.run_ops set_order tbody fuel cs TypedEventBus.init = Some st_t →
       ∃ st_u,
         UntypedEventBus.run_ops set_order ubody fuel cs UntypedEventBus.init
           = Some st_u
         ∧ registry st_u = registry st_t
         ∧ log st_u = map erase_obs (log st_t))
  ∧ (∀ (st : state payload) e d o s,
       registry st !! e = Some (o, s) →
       (∀ g, g ∈ s → ubody g d = Done ∧ tbody g e d = Done) →
       (∀ s', set_order s' ≡ₚ elements s') →
       UntypedEventBus.emit set_order ubody (S fuel) e d st
         = Ok (add_logs (calls_and_returns (Args1 d) (set_order s)) st)
       ∧ TypedEventBus.emit set_order tbody (S fuel) e d st
         = Ok (add_logs (calls_and_returns (Args2 e d) (set_order s)) st)).
Proof.
  split.
  - intros Hcase.
    assert (UntypedEventBus.run_ops set_order ubody fuel cs UntypedEventBus.init
            = untyped_view
                <$> TypedEventBus.run_ops set_order tbody fuel cs TypedEventBus.init)
      as Hview.
    { rewrite <- untyped_view_init. destruct Hcase as [Hcs|Hbody].
      - by apply run_ops_registrations_view.
      - by apply run_ops_view. }
    split; [exact Hview|].
    intros st_t Ht. rewrite Hview, Ht. by exists (untyped_view st_t).
  - intros st e d o s He Hdone Hperm. simpl. rewrite He. split.
    + apply (for_each_returning set_order _ _ _ (Args1 d) (fun g => ubody g d)); [done|].
      intros g Hg%(elem_of_set_order set_order Hperm). by apply Hdone.
    + apply (for_each_returning set_order _ _ _ (Args2 e d) (fun g => tbody g e d)); [done|].
      intros g Hg%(elem_of_set_order set_order Hperm). by apply Hdone.
Qed.

(** * The demo, run *)

Section DemoRuns.
Open Scope string_scope.

Lemma elements_order : ∀ s : gset hid, elements s ≡ₚ elements s.
Proof. intros s. reflexivity. Defined.

Example demo_post :
  log <$> UntypedEventBus.run_ops elements Demo.body 2 Demo.post Demo.bus
  = Some [ Invoked 3 (Args1 "API POST call data");
           Called (CEmit "log_event" "API POST call data");
           Invoked 2 (Args1 "API POST call data");
           Returned 2; Returned 3;
           Invoked 1 (Args1 "POST");
           Called (CEmit "log_event" "security event occurred: POST");
           Invoked 2 (Args1 "security event occurred: POST");
           Returned 2; Returned 1 ]%positive.
Proof. vm_compute. reflexivity. Qed.

(** Three emissions call a registered handler three times. *)
Example ping_three_times :
  (calls_of 2 ∘ log) <$>
    UntypedEventBus.run_ops elements Demo.body 1
      [ Register "ping" 2; Emit "ping" "";  Emit "ping" ""; Emit "ping" "" ]%positive
      UntypedEventBus.init
  = Some 3.
Proof. vm_compute. reflexivity. Qed.

(** After [unregister("evt", h1)], only [h2] sees what is emitted. *)
Example unregistered_not_called :
  log <$>
    UntypedEventBus.run_ops elements Demo.body 1
      [ Register "evt" 2; Register "evt" 5; Unregister "evt" 2; Emit "evt" "x" ]%positive
      UntypedEventBus.init
  = Some [ Invoked 5 (Args1 "x"); Returned 5 ]%positive.
Proof. vm_compute. reflexivity. Qed.

(** A handler that unregisters itself: the set changes size under the loop
    of [emit], which raises [RuntimeError] at its next step. *)
Example self_unregistering_handler :
  let body (h : hid) (d : string) : prog string :=
    Bus (CUnregister "evt" h) (reraise Done) in
  UntypedEventBus.run_op elements body 1 (Emit "evt" "x")
    {| registry := {[ "evt" := (1, {[ 2 ]}) ]};
       event_handlers := None; next_oid := 2; log := [] |}%positive
  = Exn RuntimeError
      {| registry := ∅; event_handlers := None; next_oid := 2;
         log := [ Invoked 2 (Args1 "x"); Called (CUnregister "evt" 2);
                  Returned 2 ] |}%positive.
Proof. vm_compute. reflexivity. Qed.
End DemoRuns.

(** * The statements at work on the demo *)

Section Witnesses.
Open Scope string_scope.

Lemma unregister_raises_iff_not_registered_witness :
  (is_Some (registry Demo.bus !! "log_event")
   ∧ Demo.log_event_handler ∈ handlers_of Demo.bus "log_event")
  ∧ ∃ st', UntypedEventBus.unregister "log_event" Demo.log_event_handler Demo.bus
             = Ok st'
           ∧ handlers_of st' "log_event"
             = handlers_of Demo.bus "log_event" ∖ {[Demo.log_event_handler]}
           ∧ ∀ e', e' ≠ "log_event" → registry st' !! e' = registry Demo.bus !! e'.
Proof.
  assert (is_Some (registry Demo.bus !! "log_event")
          ∧ Demo.log_event_handler ∈ handlers_of Demo.bus "log_event") as H.
  { split; [vm_compute; eexists; reflexivity|vm_compute; reflexivity]. }
  split; [exact H|].
  exact (proj2 (proj2 (proj1
           (unregister_raises_iff_not_registered
              Demo.bus "log_event" Demo.log_event_handler))) H).
Defined.

Lemma registry_key_iff_nonempty_witness :
  let st :=
    default UntypedEventBus.init
      (UntypedEventBus.run_ops elements Demo.body 2
         (Demo.registrations ++ Demo.post) UntypedEventBus.init) in
  UntypedEventBus.run_ops elements Demo.body 2
    (Demo.registrations ++ Demo.post) UntypedEventBus.init = Some st
  ∧ ∀ e, is_Some (registry st !! e) ↔ handlers_of st e ≠ ∅.
Proof.
  intros st.
  assert (UntypedEventBus.run_ops elements Demo.body 2
            (Demo.registrations ++ Demo.post) UntypedEventBus.init = Some st) as H.
  { vm_compute. reflexivity. }
  split; [exact H|].
  exact (proj1 (registry_key_iff_nonempty elements Demo.body 2
                  (Demo.registrations ++ Demo.post) st H)).
Defined.

Lemma emit_unregistered_is_noop_witness :
  registry Demo.bus !! "unused" = None
  ∧ UntypedEventBus.emit elements Demo.body 5 "unused" "42" Demo.bus = Ok Demo.bus.
Proof.
  assert (registry Demo.bus !! "unused" = None) as H by (vm_compute; reflexivity).
  split; [exact H|].
  exact (emit_unregistered_is_noop elements Demo.body 5 Demo.bus "unused" "42" H).
Defined.

Lemma register_unregister_removes_key_witness :
  handlers_of Demo.bus "ping" = ∅
  ∧ ∃ st1 st2,
      UntypedEventBus.register "ping" 7%positive Demo.bus = Ok st1
      ∧ UntypedEventBus.unregister "ping" 7%positive st1 = Ok st2
      ∧ registry st2 !! "ping" = None
      ∧ ∀ e', e' ≠ "ping" → registry st2 !! e' = registry Demo.bus !! e'.
Proof.
  assert (handlers_of Demo.bus "ping" = ∅) as H by (vm_compute; reflexivity).
  split; [exact H|].
  exact (register_unregister_removes_key Demo.bus "ping" 7%positive H).
Defined.

Lemma unregister_failure_is_atomic_witness :
  ∃ x st',
    UntypedEventBus.unregister "unused" 7%positive Demo.bus = Exn x st'
    ∧ st' = Demo.bus.
Proof.
  assert (UntypedEventBus.unregister "unused" 7%positive Demo.bus
          = Exn KeyError Demo.bus) as H by (vm_compute; reflexivity).
  exists KeyError, Demo.bus. split; [exact H|].
  exact (proj1 (unregister_failure_is_atomic
                  Demo.bus Demo.bus "unused" 7%positive KeyError) H).
Defined.

Lemma register_twice_invoked_once_witness :
  let l :=
    [ Invoked 1 (Args1 "POST");
      Called (CEmit "log_event" "security event occurred: POST");
      Invoked 2 (Args1 "security event occurred: POST");
      Returned 2; Returned 1 ]%positive in
  (UntypedEventBus.register "security_event" Demo.security_event_handler Demo.bus
     = Ok Demo.bus
   ∧ UntypedEventBus.emit elements Demo.body 2 "security_event" "POST" Demo.bus
     = Ok (add_logs l Demo.bus)
   ∧ Forall (fun o => ¬ is_mutation_of "security_event" o) l)
  ∧ (∃ pre post,
       (∀ g, g ∈ (pre ++ Demo.security_event_handler :: post)%list
             ↔ g ∈ handlers_of Demo.bus "security_event")
       ∧ (Demo.security_event_handler ∉ pre)
       ∧ (Demo.security_event_handler ∉ post)
       ∧ calls_in_turn
           (UntypedEventBus.call_handler Demo.body
              (UntypedEventBus.emit elements Demo.body 1) "POST")
           (pre ++ Demo.security_event_handler :: post)%list
           Demo.bus (add_logs l Demo.bus))
  ∧ Invoked Demo.security_event_handler (Args1 "POST") ∈ l.
Proof.
  intros l.
  assert (UntypedEventBus.register "security_event" Demo.security_event_handler
            Demo.bus = Ok Demo.bus) as Hreg by (vm_compute; reflexivity).
  assert (UntypedEventBus.emit elements Demo.body 2 "security_event" "POST" Demo.bus
          = Ok (add_logs l Demo.bus)) as Hrun by (vm_compute; reflexivity).
  assert (Forall (fun o : obs string => ¬ is_mutation_of "security_event" o) l)
    as Hl by (repeat constructor; simpl; tauto).
  split; [split; [exact Hreg|split; [exact Hrun|exact Hl]]|].
  destruct (register_twice_invoked_once elements Demo.body 1 Demo.bus
              "security_event" Demo.security_event_handler "POST" elements_order)
    as (st1 & H1 & _ & H3).
  rewrite Hreg in H1. injection H1 as <-.
  destruct (H3 (add_logs l Demo.bus) l Hrun eq_refl Hl) as (Hturn & Hin & _).
  split; [exact Hturn|exact Hin].
Defined.

(** C3 as it is worded does not hold.  Handler 2 is registered for ["evt"],
    and registered once more, which changes nothing.  In the first emission
    handler 4, which comes before it, raises: the emission ends and handler 2
    has not been called.  In the second emission the handler called first
    takes handler 2 off the event and registers another one: the emission
    returns and handler 2 has not been called. *)
Lemma register_twice_invoked_once_counterexample :
  UntypedEventBus.register "evt" 2%positive Demo.failing_bus = Ok Demo.failing_bus
  ∧ (∃ st2,
       UntypedEventBus.emit elements Demo.failing_body 1 "evt" "x" Demo.failing_bus
         = Exn (UserError "failed") st2
       ∧ log st2 = [ Invoked 6 (Args1 "x"); Returned 6; Invoked 4 (Args1 "x") ]%positive
       ∧ calls_of 2%positive (log st2) = 0)
  ∧ (∃ st2,
       UntypedEventBus.emit elements Demo.swapping_body 1 "evt" "x" Demo.failing_bus
         = Ok st2
       ∧ handlers_of st2 "evt" = {[ 4; 6; 8 ]}%positive
       ∧ calls_of 2%positive (log st2) = 0).
Proof.
  split; [vm_compute; reflexivity|].
  split; eexists; (split; [vm_compute; reflexivity|]);
    split; vm_compute; reflexivity.
Qed.

Lemma emit_propagates_handler_exception_witness :
  let call_handler :=
    UntypedEventBus.call_handler Demo.failing_body
      (UntypedEventBus.emit elements Demo.failing_body 0) "x" in
  let l := [ Invoked 6 (Args1 "x"); Returned 6 ]%positive in
  let st2 :=
    add_logs [ Invoked 6 (Args1 "x"); Returned 6; Invoked 4 (Args1 "x") ]%positive
      Demo.failing_bus in
  (registry Demo.failing_bus !! "evt" = Some (1, {[ 2; 4; 6 ]})%positive
   ∧ elements ({[ 2; 4; 6 ]}%positive : gset hid)
     = ([6%positive] ++ Demo.failing_handler :: [2%positive])%list
   ∧ calls_in_turn call_handler [6%positive] Demo.failing_bus
       (add_logs l Demo.failing_bus)
   ∧ Forall (fun o => ¬ is_mutation_of "evt" o) l
   ∧ call_handler Demo.failing_handler (add_logs l Demo.failing_bus)
     = Exn (UserError "failed") st2)
  ∧ UntypedEventBus.emit elements Demo.failing_body 1 "evt" "x" Demo.failing_bus
    = Exn (UserError "failed") st2.
Proof.
  intros call_handler l st2.
  assert (registry Demo.failing_bus !! "evt" = Some (1, {[ 2; 4; 6 ]})%positive)
    as He by (vm_compute; reflexivity).
  assert (elements ({[ 2; 4; 6 ]}%positive : gset hid)
          = ([6%positive] ++ Demo.failing_handler :: [2%positive])%list)
    as Horder by (vm_compute; reflexivity).
  assert (calls_in_turn call_handler [6%positive] Demo.failing_bus
            (add_logs l Demo.failing_bus)) as Hpre.
  { exists (add_logs l Demo.failing_bus).
    split; [vm_compute; reflexivity|reflexivity]. }
  assert (Forall (fun o : obs string => ¬ is_mutation_of "evt" o) l) as Hl
    by (repeat constructor; simpl; tauto).
  assert (call_handler Demo.failing_handler (add_logs l Demo.failing_bus)
          = Exn (UserError "failed") st2) as Hraise by (vm_compute; reflexivity).
  split; [split; [exact He|split; [exact Horder|split; [exact Hpre|split;
            [exact Hl|exact Hraise]]]]|].
  exact (emit_propagates_handler_exception elements Demo.failing_body 0
           Demo.failing_bus (add_logs l Demo.failing_bus) st2 "evt" "x"
           1%positive {[ 2; 4; 6 ]}%positive [6%positive] [2%positive]
           Demo.failing_handler (UserError "failed") l
           He Horder Hpre eq_refl Hl Hraise).
Defined.



Lemma emit_frames_registry_witness :
  let l :=
    [ Invoked 1 (Args1 "POST");
      Called (CEmit "log_event" "security event occurred: POST");
      Invoked 2 (Args1 "security event occurred: POST");
      Returned 2; Returned 1 ]%positive in
  (final (UntypedEventBus.emit elements Demo.body 2 "security_event" "POST" Demo.bus)
     = Some (add_logs l Demo.bus)
   ∧ Forall (fun o => ¬ is_mutation o) l)
  ∧ registry (add_logs l Demo.bus) = registry Demo.bus.
Proof.
  intros l.
  assert (final (UntypedEventBus.emit elements Demo.body 2 "security_event" "POST"
                   Demo.bus) = Some (add_logs l Demo.bus)) as Hrun
    by (vm_compute; reflexivity).
  assert (Forall (fun o : obs string => ¬ is_mutation o) l) as Hl
    by (repeat constructor; simpl; tauto).
  split; [by split|].
  exact (proj1 (emit_frames_registry elements Demo.body Demo.typed_body 2
                  Demo.bus (add_logs l Demo.bus) "security_event" "POST" l)
           Hrun eq_refl Hl).
Defined.

Lemma typed_untyped_equivalent_witness :
  (∀ h e d, Demo.typed_body h e d = Demo.body h d)
  ∧ UntypedEventBus.run_ops elements Demo.body 2
      (Demo.registrations ++ Demo.post) UntypedEventBus.init
    = untyped_view
        <$> TypedEventBus.run_ops elements Demo.typed_body 2
              (Demo.registrations ++ Demo.post) TypedEventBus.init.
Proof.
  assert (∀ h e d, Demo.typed_body h e d = Demo.body h d) as H
    by (intros h e d; reflexivity).
  split; [exact H|].
  exact (proj1 (proj1 (typed_untyped_equivalent elements Demo.body Demo.typed_body 2
                         (Demo.registrations ++ Demo.post)) (or_intror H))).
Defined.
End Witnesses.

(** * More about the two classes *)

(** ** What [register] and [unregister] do to the sets *)

Section Sets.
Context {payload : Type}.
Implicit Types (st : state payload) (e : string) (h g : hid).

Lemma register_handlers_of_other st st' e h e' :
  UntypedEventBus.register e h st = Ok st' → e' ≠ e →
  handlers_of st' e' = handlers_of st e'.
Proof.
  intros Hreg Hne. unfold handlers_of.
  by rewrite (register_registry_other st st' e h e' Hreg Hne).
Qed.

Lemma register_next_oid st st' e h :
  UntypedEventBus.register e h st = Ok st' →
  (next_oid st ≤ next_oid st')%positive.
Proof.
  unfold UntypedEventBus.register, setitem_new, getitem_add.
  destruct (negb _); [intros [= <-]; simpl; lia|].
  destruct (registry st !! e) as [[o s]|]; [|done]. intros [= <-]. simpl. lia.
Qed.

(** The handler sets after [register(e, h)], name by name. *)
Lemma register_handlers_of_all st st' e h e' :
  UntypedEventBus.register e h st = Ok st' →
  handlers_of st' e'
  = if decide (e' = e) then {[h]} ∪ handlers_of st e else handlers_of st e'.
Proof.
  intros Hreg. destruct (decide (e' = e)) as [->|Hne].
  - by apply register_handlers_of.
  - by apply register_handlers_of_other with e h.
Qed.

(** The handler sets after an [unregister(e, h)] that returns. *)
Lemma unregister_handlers_of_all st st' e h e' :
  UntypedEventBus.unregister e h st = Ok st' →
  h ∈ handlers_of st e
  ∧ handlers_of st' e'
    = if decide (e' = e) then handlers_of st e ∖ {[h]} else handlers_of st e'.
Proof.
  intros Hun.
  destruct (unregister_cases st e h) as [(o & s & He & Hh)|Hno];
    [|by rewrite (unregister_key_error st e h Hno) in Hun].
  destruct (unregister_ok st e h o s He Hh) as (st1 & Hun1 & Hset & _ & Hother).
  rewrite Hun in Hun1. injection Hun1 as <-.
  assert (handlers_of st e = s) as Hs by (unfold handlers_of; by rewrite He).
  split; [by rewrite Hs|].
  destruct (decide (e' = e)) as [->|Hne]; [by rewrite Hs|].
  unfold handlers_of. by rewrite (Hother e' Hne).
Qed.
End Sets.

(** X1.  [register(e, h)] returns and leaves [h] registered for [e] beside
    the handlers that were; the entries of the other event names are what
    they were and no handler is called.  So in both classes. *)
Theorem register_adds_handler {payload : Type}
    (st : state payload) (e : string) (h : hid) :
  let adds (register : string → hid → M payload) :=
    ∃ st', register e h st = Ok st'
           ∧ handlers_of st' e = {[h]} ∪ handlers_of st e
           ∧ (∀ e', e' ≠ e → registry st' !! e' = registry st !! e')
           ∧ log st' = log st in
  adds UntypedEventBus.register ∧ adds TypedEventBus.register.
Proof.
  intros adds.
  cut (adds UntypedEventBus.register); [intros H; by split|].
  destruct (register_total st e h) as [st' Hreg]. exists st'. split_and!.
  - done.
  - by apply register_handlers_of.
  - intros e' Hne. by apply register_registry_other with e h.
  - by apply register_log with e h.
Qed.

(** X2.  Two registrations in either order leave the same handlers
    registered for every event name. *)
Theorem register_order_irrelevant {payload : Type}
    (st : state payload) (e1 e2 : string) (h1 h2 : hid) :
  ∃ st12 st21,
    seq (UntypedEventBus.register e1 h1) (UntypedEventBus.register e2 h2) st = Ok st12
    ∧ seq (UntypedEventBus.register e2 h2) (UntypedEventBus.register e1 h1) st = Ok st21
    ∧ ∀ e, handlers_of st12 e = handlers_of st21 e.
Proof.
  unfold seq.
  destruct (register_total st e1 h1) as [sa Ha]. rewrite Ha.
  destruct (register_total sa e2 h2) as [st12 H12]. rewrite H12.
  destruct (register_total st e2 h2) as [sb Hb]. rewrite Hb.
  destruct (register_total sb e1 h1) as [st21 H21]. rewrite H21.
  exists st12, st21. split_and!; [done..|]. intros e.
  rewrite (register_handlers_of_all sa st12 e2 h2 e H12),
    (register_handlers_of_all sb st21 e1 h1 e H21),
    (register_handlers_of_all st sa e1 h1 e2 Ha),
    (register_handlers_of_all st sa e1 h1 e Ha),
    (register_handlers_of_all st sb e2 h2 e1 Hb),
    (register_handlers_of_all st sb e2 h2 e Hb).
  repeat case_decide; subst; try done; apply leibniz_equiv; set_solver.
Qed.

(** X3.  When [h] is not registered for [e], [register(e, h)] followed by
    [unregister(e, h)] returns and leaves every event name with the handlers
    it had. *)
Theorem register_unregister_restores {payload : Type}
    (st : state payload) (e : string) (h : hid) :
  h ∉ handlers_of st e →
  ∃ st',
    seq (UntypedEventBus.register e h) (UntypedEventBus.unregister e h) st = Ok st'
    ∧ ∀ e', handlers_of st' e' = handlers_of st e'.
Proof.
  intros Hnot. unfold seq.
  destruct (register_total st e h) as [st1 Hreg]. rewrite Hreg.
  pose proof (register_handlers_of st st1 e h Hreg) as Hs1.
  assert (h ∈ handlers_of st1 e) as Hin
    by (rewrite Hs1; apply elem_of_union_l; by apply elem_of_singleton).
  unfold handlers_of in Hin at 1.
  destruct (registry st1 !! e) as [[o s]|] eqn:He1;
    [|by apply not_elem_of_empty in Hin].
  destruct (unregister_ok st1 e h o s He1 Hin) as (st2 & Hun & _).
  exists st2. split; [done|]. intros e'.
  rewrite (proj2 (unregister_handlers_of_all st1 st2 e h e' Hun)),
    (register_handlers_of_all st st1 e h e' Hreg), Hs1.
  case_decide; subst; [|done]. apply leibniz_equiv. set_solver.
Qed.

(** X4.  When [h] is registered for [e], [unregister(e, h)] followed by
    [register(e, h)] returns and leaves every event name with the handlers
    it had. *)
Theorem unregister_register_restores {payload : Type}
    (st : state payload) (e : string) (h : hid) :
  h ∈ handlers_of st e →
  ∃ st',
    seq (UntypedEventBus.unregister e h) (UntypedEventBus.register e h) st = Ok st'
    ∧ ∀ e', handlers_of st' e' = handlers_of st e'.
Proof.
  intros Hin. unfold seq. pose proof Hin as Hin'. unfold handlers_of in Hin'.
  destruct (registry st !! e) as [[o s]|] eqn:He;
    [|by apply not_elem_of_empty in Hin'].
  destruct (unregister_ok st e h o s He Hin') as (st1 & Hun & _). rewrite Hun.
  destruct (register_total st1 e h) as [st2 Hreg]. exists st2. split; [done|].
  intros e'.
  rewrite (register_handlers_of_all st1 st2 e h e' Hreg),
    (proj2 (unregister_handlers_of_all st st1 e h e Hun)),
    (proj2 (unregister_handlers_of_all st st1 e h e' Hun)).
  repeat case_decide; subst; try done.
  apply leibniz_equiv. intros g. destruct (decide (g = h)); set_solver.
Qed.

(** X5.  [unregister] is not idempotent: after an [unregister(e, h)] that
    returned, a second [unregister(e, h)] raises [KeyError] and changes
    nothing.  So in both classes. *)
Theorem unregister_twice_raises {payload : Type}
    (st st' : state payload) (e : string) (h : hid) :
  (UntypedEventBus.unregister e h st = Ok st' →
   UntypedEventBus.unregister e h st' = Exn KeyError st')
  ∧ (TypedEventBus.unregister e h st = Ok st' →
     TypedEventBus.unregister e h st' = Exn KeyError st').
Proof.
  cut (UntypedEventBus.unregister e h st = Ok st' →
       UntypedEventBus.unregister e h st' = Exn KeyError st'); [by split|].
  intros Hun. apply unregister_key_error. right.
  rewrite (proj2 (unregister_handlers_of_all st st' e h e Hun)).
  rewrite decide_True by done. set_solver.
Qed.

(** ** Who is called *)

Section FanOut.
Context {payload : Type}.
Variable set_order : gset hid → list hid.
Hypothesis set_order_perm : ∀ s, set_order s ≡ₚ elements s.
Implicit Types (st : state payload) (e : string) (h g : hid).

Lemma invoked_in_returning_inv g (a a' : args payload) hs :
  Invoked g a' ∈ calls_and_returns a hs → a' = a ∧ g ∈ hs.
Proof.
  induction hs as [|g' hs IH]; simpl; [by intros ?%elem_of_nil|].
  intros [[= -> ->]|[[=]|Hin]%elem_of_cons]%elem_of_cons.
  - split; [done|by left].
  - destruct (IH Hin) as [-> Hg]. split; [done|by right].
Qed.

Lemma calls_of_returning g (a : args payload) s :
  calls_of g (calls_and_returns a (set_order s))
  = if decide (g ∈ s) then 1 else 0.
Proof using set_order_perm.
  case_decide as Hg.
  - apply calls_of_returning_once; [by apply NoDup_set_order|].
    by apply elem_of_set_order.
  - apply calls_of_returning_absent. by rewrite elem_of_set_order.
Qed.

(** An emission to handlers that return at once, whatever the class: the
    log it leaves. *)
Lemma dispatch_returning (rec : string → payload → M payload)
    (a : args payload) (b : hid → prog payload) st e :
  (∀ g, g ∈ handlers_of st e → b g = Done) →
  ∃ l,
    match registry st !! e with
    | None => Ok st
    | Some (o, s) =>
        for_each set_order
          (fun g => invoke UntypedEventBus.register UntypedEventBus.unregister rec
                      g a (b g))
          e o (size s) 0 (length (set_order s)) st
    end = Ok (add_logs l st)
    ∧ (∀ g, calls_of g l = if decide (g ∈ handlers_of st e) then 1 else 0)
    ∧ (∀ g a', Invoked g a' ∈ l → a' = a).
Proof using set_order_perm.
  intros Hdone. unfold handlers_of in *.
  destruct (registry st !! e) as [[o s]|] eqn:He.
  - exists (calls_and_returns a (set_order s)). split_and!.
    + apply (for_each_returning set_order); [done|].
      intros g Hg. apply Hdone. by apply (elem_of_set_order set_order).
    + intros g. apply calls_of_returning.
    + intros g a' Hin. by apply invoked_in_returning_inv in Hin as [-> _].
  - exists []. split_and!.
    + by rewrite add_logs_nil.
    + intros g. by rewrite decide_False by apply not_elem_of_empty.
    + by intros g a' ?%elem_of_nil.
Qed.
End FanOut.

(** X6.  When the handlers registered for [e] return without calling the
    bus, [emit(e, d)] returns, the registry is what it was, each handler
    registered for [e] has been called once and no other handler at all; the
    untyped bus calls them with [(d)], the typed one with [(e, d)]. *)
Theorem emit_calls_each_registered_once {payload : Type}
    (set_order : gset hid → list hid)
    (ubody : hid → payload → prog payload)
    (tbody : hid → string → payload → prog payload)
    (fuel : nat) (st : state payload) (e : string) (d : payload) :
  (∀ s, set_order s ≡ₚ elements s) →
  ((∀ g, g ∈ handlers_of st e → ubody g d = Done) →
   ∃ l, UntypedEventBus.emit set_order ubody (S fuel) e d st = Ok (add_logs l st)
        ∧ (∀ g, calls_of g l = if decide (g ∈ handlers_of st e) then 1 else 0)
        ∧ (∀ g a, Invoked g a ∈ l → a = Args1 d))
  ∧ ((∀ g, g ∈ handlers_of st e → tbody g e d = Done) →
     ∃ l, TypedEventBus.emit set_order tbody (S fuel) e d st = Ok (add_logs l st)
          ∧ (∀ g, calls_of g l = if decide (g ∈ handlers_of st e) then 1 else 0)
          ∧ (∀ g a, Invoked g a ∈ l → a = Args2 e d)).
Proof.
  intros Hperm. split; intros Hdone.
  - exact (dispatch_returning set_order Hperm
             (UntypedEventBus.emit set_order ubody fuel)
             (Args1 d) (fun g => ubody g d) st e Hdone).
  - exact (dispatch_returning set_order Hperm
             (TypedEventBus.emit set_order tbody fuel)
             (Args2 e d) (fun g => tbody g e d) st e Hdone).
Qed.

(** X7.  After an [unregister(e, h)] that returned, an [emit(e, d)] to
    handlers that return at once calls each handler that is left once and
    does not call [h]. *)
Theorem unregistered_handler_not_called {payload : Type}
    (set_order : gset hid → list hid) (body : hid → payload → prog payload)
    (fuel : nat) (st st' : state payload) (e : string) (h : hid) (d : payload) :
  (∀ s, set_order s ≡ₚ elements s) →
  UntypedEventBus.unregister e h st = Ok st' →
  (∀ g, g ∈ handlers_of st e → g ≠ h → body g d = Done) →
  ∃ l, UntypedEventBus.emit set_order body (S fuel) e d st' = Ok (add_logs l st')
       ∧ calls_of h l = 0
       ∧ ∀ g, g ∈ handlers_of st e → g ≠ h → calls_of g l = 1.
Proof.
  intros Hperm Hun Hdone.
  pose proof (proj2 (unregister_handlers_of_all st st' e h e Hun)) as Hs.
  rewrite decide_True in Hs by done.
  destruct (dispatch_returning set_order Hperm
              (UntypedEventBus.emit set_order body fuel)
              (Args1 d) (fun g => body g d) st' e) as (l & Hrun & Hcalls & _).
  { intros g. rewrite Hs. intros [Hg Hne]%elem_of_difference.
    apply Hdone; [done|]. intros ->. by apply Hne, elem_of_singleton. }
  exists l. split_and!; [exact Hrun| |].
  - rewrite Hcalls, Hs, decide_False; [done|].
    intros [_ Hne]%elem_of_difference. by apply Hne, elem_of_singleton.
  - intros g Hg Hne. rewrite Hcalls, Hs, decide_True; [done|].
    apply elem_of_difference. split; [done|]. by intros ->%elem_of_singleton.
Qed.

(** ** Handlers that change the registry under the loop *)

Section UnderTheLoop.
Context {payload : Type}.
Variable set_order : gset hid → list hid.
Variable body : hid → payload → prog payload.
Variable bus_emit : string → payload → M payload.
Implicit Types (st : state payload) (e : string) (h g : hid).

(** The loop of [emit] up to the first handler that does not just return. *)
Lemma untyped_loop_around d e o s pre h post st :
  registry st !! e = Some (o, s) →
  set_order s = pre ++ h :: post →
  (∀ g, g ∈ pre → body g d = Done) →
  for_each set_order (UntypedEventBus.call_handler body bus_emit d)
    e o (size s) 0 (length (set_order s)) st
  = seq (UntypedEventBus.call_handler body bus_emit d h)
      (for_each set_order (UntypedEventBus.call_handler body bus_emit d)
         e o (size s) (S (length pre)) (length post))
      (add_logs (calls_and_returns (Args1 d) pre) st).
Proof.
  intros He Horder Hpre.
  replace (length (set_order s)) with (length pre + S (length post))
    by (by rewrite Horder, length_app).
  unfold UntypedEventBus.call_handler at 1.
  rewrite (for_each_leaf set_order _ _ _ (Args1 d) (fun g => body g d)
             e o s [] pre (h :: post) (S (length post)) st He Horder Hpre).
  apply (for_each_step set_order _ e o s); [done|].
  rewrite Horder. by apply list_lookup_middle.
Qed.

(** What is left of the loop when the handlers to come return at once. *)
Lemma untyped_loop_rest d e o s pre h post st :
  registry st !! e = Some (o, s) →
  set_order s = pre ++ h :: post →
  (∀ g, g ∈ post → body g d = Done) →
  for_each set_order (UntypedEventBus.call_handler body bus_emit d)
    e o (size s) (S (length pre)) (length post) st
  = Ok (add_logs (calls_and_returns (Args1 d) post) st).
Proof.
  intros He Horder Hpost.
  replace (S (length pre)) with (length (pre ++ [h]))
    by (rewrite length_app; simpl; lia).
  apply (for_each_leaf_rest set_order _ _ _ (Args1 d) (fun g => body g d)
           e o s (pre ++ [h]) post st He); [|done].
  by rewrite <- (assoc_L (++)).
Qed.

(** A handler whose body is one call into the bus, its exception not
    handled. *)
Lemma call_handler_one_call d h c st :
  body h d = Bus c (reraise Done) →
  UntypedEventBus.call_handler body bus_emit d h st
  = match do_call UntypedEventBus.register UntypedEventBus.unregister bus_emit c
            (add_log (Invoked h (Args1 d)) st) with
    | Ok st' => Ok (add_log (Returned h) st')
    | r => r
    end.
Proof.
  intros Hbody. unfold UntypedEventBus.call_handler, invoke.
  rewrite Hbody. simpl. unfold try_catch.
  by destruct (do_call _ _ _ _ _).
Qed.

Lemma unregister_live_size st st' e h o s :
  registry st !! e = Some (o, s) → h ∈ s →
  UntypedEventBus.unregister e h st = Ok st' →
  live_size e o st' ≠ size s.
Proof.
  intros He Hh. rewrite unregister_unfold, He, decide_True by done.
  assert (size s ≠ 0) as Hpos.
  { apply size_non_empty_iff. intros Hs. apply Hs in Hh.
    by apply not_elem_of_empty in Hh. }
  assert (size (s ∖ {[h]}) = size s - 1) as Hsize.
  { rewrite size_difference by (by apply singleton_subseteq_l).
    by rewrite size_singleton. }
  unfold live_size.
  destruct (decide (size (s ∖ {[h]}) = 0)); intros [= <-]; simpl.
  - by rewrite lookup_delete_eq.
  - rewrite lookup_insert_eq, decide_True by done. lia.
Qed.

Lemma register_live_size st st' e g o s :
  registry st !! e = Some (o, s) → s ≠ ∅ → g ∉ s →
  UntypedEventBus.register e g st = Ok st' →
  live_size e o st' ≠ size s.
Proof.
  intros He Hs Hg. rewrite (register_add st e g o s He Hs). intros [= <-].
  unfold live_size. simpl. rewrite lookup_insert_eq, decide_True by done.
  rewrite size_union by (by apply disjoint_singleton_l).
  rewrite size_singleton. lia.
Qed.
End UnderTheLoop.

(** X8.  A handler that unregisters itself from the event being emitted:
    the handlers before it in the traversal (which return at once) have been
    called, it is called, it is unregistered and it returns; then the loop
    of [emit] finds the set with another size and [emit] raises
    [RuntimeError], the handlers after it not being called.  This is so even
    when it is the last or the only handler. *)
Theorem self_unregistering_handler_aborts {payload : Type}
    (set_order : gset hid → list hid) (body : hid → payload → prog payload)
    (fuel : nat) (st : state payload) (e : string) (d : payload)
    (o : oid) (s : gset hid) (pre post : list hid) (h : hid) :
  (∀ s, set_order s ≡ₚ elements s) →
  registry st !! e = Some (o, s) →
  set_order s = pre ++ h :: post →
  (∀ g, g ∈ pre → body g d = Done) →
  body h d = Bus (CUnregister e h) (reraise Done) →
  ∃ st',
    UntypedEventBus.emit set_order body (S fuel) e d st = Exn RuntimeError st'
    ∧ handlers_of st' e = s ∖ {[h]}
    ∧ (∀ e', e' ≠ e → registry st' !! e' = registry st !! e')
    ∧ log st' = log st ++ calls_and_returns (Args1 d) pre
                  ++ [Invoked h (Args1 d); Called (CUnregister e h); Returned h].
Proof.
  intros Hperm He Horder Hpre Hbody.
  assert (h ∈ s) as Hh.
  { apply (elem_of_set_order set_order Hperm). rewrite Horder.
    apply elem_of_app. right. by left. }
  simpl. rewrite He, (untyped_loop_around set_order body _ d e o s pre h post st
                        He Horder Hpre).
  unfold seq. rewrite (call_handler_one_call body _ d h _ _ Hbody). unfold do_call.
  set (st1 := add_log (Called (CUnregister e h))
                (add_log (Invoked h (Args1 d))
                   (add_logs (calls_and_returns (Args1 d) pre) st))).
  assert (registry st1 !! e = Some (o, s)) as He1 by done.
  destruct (unregister_ok st1 e h o s He1 Hh) as (st2 & Hun & Hset & _ & Hother).
  rewrite Hun.
  rewrite for_each_size_changed
    by apply (unregister_live_size st1 st2 e h o s He1 Hh Hun).
  eexists. split_and!; [done|exact Hset|exact Hother|].
  simpl. rewrite (unregister_log st1 e h st2) by (by rewrite Hun).
  simpl. by rewrite <- !(assoc_L (++)).
Qed.

(** X9.  A handler that registers, for the event being emitted, a handler
    that was not registered for it: the new handler is registered, the
    handler returns, then [emit] raises [RuntimeError]; neither the new
    handler nor the handlers that were still to come are called. *)
Theorem registering_handler_aborts {payload : Type}
    (set_order : gset hid → list hid) (body : hid → payload → prog payload)
    (fuel : nat) (st : state payload) (e : string) (d : payload)
    (o : oid) (s : gset hid) (pre post : list hid) (h g : hid) :
  (∀ s, set_order s ≡ₚ elements s) →
  registry st !! e = Some (o, s) →
  set_order s = pre ++ h :: post →
  (∀ g', g' ∈ pre → body g' d = Done) →
  body h d = Bus (CRegister e g) (reraise Done) →
  g ∉ s →
  ∃ st',
    UntypedEventBus.emit set_order body (S fuel) e d st = Exn RuntimeError st'
    ∧ handlers_of st' e = {[g]} ∪ s
    ∧ (∀ e', e' ≠ e → registry st' !! e' = registry st !! e')
    ∧ log st' = log st ++ calls_and_returns (Args1 d) pre
                  ++ [Invoked h (Args1 d); Called (CRegister e g); Returned h].
Proof.
  intros Hperm He Horder Hpre Hbody Hg.
  assert (s ≠ ∅) as Hs.
  { intros ->. apply (not_elem_of_empty (C:=gset positive) h).
    apply (elem_of_set_order set_order Hperm). rewrite Horder.
    apply elem_of_app. right. by left. }
  simpl. rewrite He, (untyped_loop_around set_order body _ d e o s pre h post st
                        He Horder Hpre).
  unfold seq. rewrite (call_handler_one_call body _ d h _ _ Hbody). unfold do_call.
  set (st1 := add_log (Called (CRegister e g))
                (add_log (Invoked h (Args1 d))
                   (add_logs (calls_and_returns (Args1 d) pre) st))).
  assert (registry st1 !! e = Some (o, s)) as He1 by done.
  destruct (register_total st1 e g) as [st2 Hreg]. rewrite Hreg.
  rewrite for_each_size_changed
    by apply (register_live_size st1 st2 e g o s He1 Hs Hg Hreg).
  eexists. split_and!; [done| | |].
  - change (handlers_of st2 e = {[g]} ∪ s).
    rewrite (register_handlers_of st1 st2 e g Hreg).
    unfold handlers_of. by rewrite He1.
  - intros e' Hne. simpl.
    by rewrite (register_registry_other st1 st2 e g e' Hreg Hne).
  - simpl. rewrite (register_log st1 e g st2 Hreg).
    simpl. by rewrite <- !(assoc_L (++)).
Qed.

(** X10.  A handler of [A] that registers a handler for another event [B],
    the other handlers of [A] returning at once: [emit(A, d)] returns, every
    handler of [A] has been called in turn, and the new handler is
    registered for [B] when [emit] returns. *)
Theorem registering_for_another_event {payload : Type}
    (set_order : gset hid → list hid) (body : hid → payload → prog payload)
    (fuel : nat) (st : state payload) (A B : string) (d : payload)
    (o : oid) (s : gset hid) (pre post : list hid) (h g : hid) :
  registry st !! A = Some (o, s) →
  set_order s = pre ++ h :: post →
  (∀ g', g' ∈ pre ++ post → body g' d = Done) →
  body h d = Bus (CRegister B g) (reraise Done) →
  B ≠ A →
  ∃ st',
    UntypedEventBus.emit set_order body (S fuel) A d st = Ok st'
    ∧ handlers_of st' B = {[g]} ∪ handlers_of st B
    ∧ (∀ e', e' ≠ B → registry st' !! e' = registry st !! e')
    ∧ log st' = log st ++ calls_and_returns (Args1 d) pre
                  ++ [Invoked h (Args1 d); Called (CRegister B g); Returned h]
                  ++ calls_and_returns (Args1 d) post.
Proof.
  intros He Horder Hleaf Hbody Hne.
  assert (∀ g', g' ∈ pre → body g' d = Done) as Hpre
    by (intros g' Hg'; apply Hleaf, elem_of_app; by left).
  assert (∀ g', g' ∈ post → body g' d = Done) as Hpost
    by (intros g' Hg'; apply Hleaf, elem_of_app; by right).
  simpl. rewrite He, (untyped_loop_around set_order body _ d A o s pre h post st
                        He Horder Hpre).
  unfold seq. rewrite (call_handler_one_call body _ d h _ _ Hbody). unfold do_call.
  set (st1 := add_log (Called (CRegister B g))
                (add_log (Invoked h (Args1 d))
                   (add_logs (calls_and_returns (Args1 d) pre) st))).
  destruct (register_total st1 B g) as [st2 Hreg]. rewrite Hreg.
  assert (registry (add_log (Returned h) st2) !! A = Some (o, s)) as He2.
  { simpl. by rewrite (register_registry_other st1 st2 B g A Hreg). }
  rewrite (untyped_loop_rest set_order body _ d A o s pre h post _ He2 Horder Hpost).
  eexists. split_and!; [done| | |].
  - change (handlers_of st2 B = {[g]} ∪ handlers_of st B).
    by rewrite (register_handlers_of st1 st2 B g Hreg).
  - intros e' Hne'. simpl.
    by rewrite (register_registry_other st1 st2 B g e' Hreg Hne').
  - simpl. rewrite (register_log st1 B g st2 Hreg).
    simpl. by rewrite <- !(assoc_L (++)).
Qed.

(** ** A handler that replaces another one under the loop *)

Section Replaced.
Context {payload : Type}.
Variable set_order : gset hid → list hid.
Hypothesis set_order_perm : ∀ s, set_order s ≡ₚ elements s.
Variable body : hid → payload → prog payload.
Variable bus_emit : string → payload → M payload.
Implicit Types (st : state payload) (e : string) (h g : hid).

(** What is left of a loop over a set that [g] is not in, when all the
    handlers return at once but [h], which calls [unregister(e, g)] first and
    does not handle its exception. *)
Lemma untyped_loop_without d e o s h g k left pos st :
  registry st !! e = Some (o, s) → g ∉ s → g ≠ h →
  body h d = Bus (CUnregister e g) k →
  (∀ y, k (Some y) = Throw y) →
  (∀ j, j ≠ h → body j d = Done) →
  ∃ st' l,
    final (for_each set_order (UntypedEventBus.call_handler body bus_emit d)
             e o (size s) pos left st) = Some st'
    ∧ registry st' = registry st
    ∧ log st' = log st ++ l
    ∧ calls_of g l = 0.
Proof using set_order_perm.
  intros He Hg Hne Hbody Hk Hleaf. revert pos st He.
  induction left as [|left IH]; intros pos st He.
  - rewrite (for_each_end set_order _ e o s pos st He).
    exists st, []. by rewrite (right_id_L [] (++)).
  - destruct (set_order s !! pos) as [j|] eqn:Hj; cycle 1.
    { cbn [for_each].
      rewrite (live_size_same e o s st He), decide_True by done.
      rewrite (live_entries_same set_order e o s st He), Hj.
      exists st, []. by rewrite (right_id_L [] (++)). }
    rewrite (for_each_step set_order _ e o s pos left j st He Hj). unfold seq.
    assert (j ≠ g) as Hjg.
    { intros ->. apply Hg. apply (elem_of_set_order set_order set_order_perm).
      by eapply list_elem_of_lookup_2. }
    unfold UntypedEventBus.call_handler at 1. unfold invoke.
    destruct (decide (j = h)) as [->|Hjh].
    + rewrite Hbody. simpl. unfold try_catch, do_call.
      rewrite unregister_key_error
        by (right; unfold handlers_of; simpl; by rewrite He).
      rewrite Hk. simpl.
      eexists _, [Invoked h (Args1 d); Called (CUnregister e g)].
      split_and!; [done|done| |].
      * simpl. by rewrite <- (assoc_L (++)).
      * simpl. by rewrite decide_False.
    + rewrite (Hleaf j Hjh). simpl.
      destruct (IH (S pos) (add_log (Returned j) (add_log (Invoked j (Args1 d)) st)) He)
        as (st' & l & Hfin & Hreg & Hlog & Hcalls).
      exists st', (Invoked j (Args1 d) :: Returned j :: l).
      split_and!; [done|done| |].
      * rewrite Hlog. simpl. by rewrite <- !(assoc_L (++)).
      * simpl. by rewrite decide_False.
Qed.
End Replaced.

(** X15.  A handler that takes another handler [g], not yet called, off the
    event being emitted and registers a new one in its place, so that the
    set has the size it had: whatever the loop of [emit] goes on with, and
    however the emission ends, [g] is not called in it; the new handler is
    registered and [g] is not when the emission has ended.  The other
    handlers return at once. *)
Theorem replaced_handler_not_called {payload : Type}
    (set_order : gset hid → list hid) (body : hid → payload → prog payload)
    (fuel : nat) (st : state payload) (e : string) (d : payload)
    (o : oid) (s : gset hid) (pre post : list hid) (h g g' : hid) :
  (∀ s, set_order s ≡ₚ elements s) →
  registry st !! e = Some (o, s) →
  set_order s = pre ++ h :: post →
  g ∈ post →
  g' ∉ s →
  body h d = Bus (CUnregister e g)
               (reraise (Bus (CRegister e g') (reraise Done))) →
  (∀ j, j ≠ h → body j d = Done) →
  ∃ st' l,
    final (UntypedEventBus.emit set_order body (S fuel) e d st) = Some st'
    ∧ handlers_of st' e = {[g']} ∪ (s ∖ {[g]})
    ∧ log st' = log st ++ l
    ∧ calls_of g l = 0.
Proof.
  intros Hperm He Horder Hgpost Hg' Hbody Hleaf.
  pose proof (NoDup_set_order set_order Hperm s) as Hnd.
  rewrite Horder in Hnd. apply NoDup_app in Hnd as (_ & Hpre & Hnd).
  apply NoDup_cons in Hnd as [Hhpost _].
  assert (g ≠ h) as Hgh by (intros ->; done).
  assert (g ∉ pre) as Hgpre.
  { intros Hin. apply (Hpre g Hin). by right. }
  assert (g ∈ s ∧ h ∈ s) as [Hgs Hhs].
  { split; apply (elem_of_set_order set_order Hperm); rewrite Horder;
      apply elem_of_app; right; [by right|by left]. }
  simpl. rewrite He.
  rewrite (untyped_loop_around set_order body _ d e o s pre h post st He Horder)
    by (intros j Hj; apply Hleaf; intros ->; apply (Hpre h Hj); by left).
  unfold seq. unfold UntypedEventBus.call_handler at 1. unfold invoke.
  rewrite Hbody. simpl. unfold try_catch, do_call.
  set (st1 := add_log (Called (CUnregister e g))
                (add_log (Invoked h (Args1 d))
                   (add_logs (calls_and_returns (Args1 d) pre) st))).
  assert (registry st1 !! e = Some (o, s)) as He1 by done.
  assert (size (s ∖ {[g]}) ≠ 0) as Hsize.
  { apply size_non_empty_iff. intros Hempty.
    apply (not_elem_of_empty (C:=gset positive) h). rewrite <- Hempty.
    apply elem_of_difference. split; [done|]. by intros ->%elem_of_singleton. }
  rewrite (unregister_unfold st1 e g), He1, decide_True, decide_False by done.
  simpl. unfold try_catch, do_call.
  set (st2 := add_log (Called (CRegister e g'))
                (set_registry (<[e:=(o, s ∖ {[g]})]> (registry st1)) st1)).
  assert (registry st2 !! e = Some (o, s ∖ {[g]})) as He2
    by (simpl; by rewrite lookup_insert_eq).
  change (UntypedEventBus.register e g' _) with (UntypedEventBus.register e g' st2).
  rewrite (register_add st2 e g' o (s ∖ {[g]}) He2)
    by (intros Hempty; by rewrite Hempty, size_empty in Hsize).
  cbn [exec reraise].
  set (s' := {[g']} ∪ s ∖ {[g]}).
  set (st3 := add_log (Returned h)
                (set_registry (<[e:=(o, s')]> (registry st2)) st2)).
  assert (registry st3 !! e = Some (o, s')) as He3
    by (simpl; by rewrite lookup_insert_eq).
  assert (size s = size s') as ->.
  { unfold s'. rewrite size_union by set_solver.
    rewrite size_singleton, size_difference by (by apply singleton_subseteq_l).
    rewrite size_singleton.
    assert (size s ≠ 0) by (apply size_non_empty_iff; set_solver). lia. }
  destruct (untyped_loop_without set_order Hperm body
              (UntypedEventBus.emit set_order body fuel) d e o s' h g
              (reraise (Bus (CRegister e g') (reraise Done)))
              (length post) (S (length pre)) st3 He3)
    as (st' & l & Hfin & Hreg & Hlog & Hcalls); [|done..|].
  { unfold s'. set_solver. }
  exists st', (calls_and_returns (Args1 d) pre
               ++ [Invoked h (Args1 d); Called (CUnregister e g);
                   Called (CRegister e g'); Returned h] ++ l).
  split_and!; [exact Hfin| | |].
  - unfold handlers_of. by rewrite Hreg, He3.
  - rewrite Hlog. simpl. by rewrite <- !(assoc_L (++)).
  - rewrite calls_of_app, calls_of_returning_absent by done. simpl.
    by rewrite decide_False.
Qed.

(** ** The typed bus *)

Section Typed.
Context {payload : Type}.
Implicit Types (st : state payload) (e : string) (h : hid).

Lemma register_event_handlers st e h st' :
  UntypedEventBus.register e h st = Ok st' →
  event_handlers st' = event_handlers st.
Proof.
  unfold UntypedEventBus.register, setitem_new, getitem_add.
  destruct (negb _); [by intros [= <-]|].
  destruct (registry st !! e) as [[o s]|]; [|done]. by intros [= <-].
Qed.

Lemma unregister_event_handlers st e h st' :
  final (UntypedEventBus.unregister e h st) = Some st' →
  event_handlers st' = event_handlers st.
Proof.
  rewrite unregister_unfold.
  destruct (registry st !! e) as [[o s]|]; [|by intros [= <-]].
  destruct (decide (h ∈ s)); [|by intros [= <-]].
  destruct (decide (size (s ∖ {[h]}) = 0)); by intros [= <-].
Qed.

Lemma register_typed_bus_ok e h :
  preserves typed_bus_ok (UntypedEventBus.register (payload:=payload) e h).
Proof.
  intros st [Hinv Heh]. pose proof (register_no_empty_set e h st Hinv) as H.
  destruct (register_total st e h) as [st' Hreg]. rewrite Hreg in *.
  split; [done|]. by rewrite (register_event_handlers st e h st' Hreg).
Qed.

Lemma unregister_typed_bus_ok e h :
  preserves typed_bus_ok (UntypedEventBus.unregister (payload:=payload) e h).
Proof.
  intros st [Hinv Heh]. pose proof (unregister_no_empty_set e h st Hinv) as H.
  pose proof (unregister_event_handlers st e h) as Hk.
  destruct (UntypedEventBus.unregister e h st) as [st'|x st'|]; [| |done];
    (split; [done|]); by rewrite (Hk st').
Qed.

Lemma typed_run_op_ok set_order body fuel (c : op payload) :
  preserves typed_bus_ok (TypedEventBus.run_op set_order body fuel c).
Proof.
  destruct c as [e h|e h|e d]; simpl.
  - apply register_typed_bus_ok.
  - apply unregister_typed_bus_ok.
  - apply (typed_emit_preserves set_order typed_bus_ok (fun _ => True)).
    + by intros o st [? ?].
    + intros. apply preserves_after_log;
        [by intros st [? ?]|apply register_typed_bus_ok].
    + intros. apply preserves_after_log;
        [by intros st [? ?]|apply unregister_typed_bus_ok].
    + intros. apply calls_in_any.
Qed.

Lemma typed_run_ops_ok set_order body fuel (cs : list (op payload)) :
  ∀ st st',
    typed_bus_ok st →
    TypedEventBus.run_ops set_order body fuel cs st = Some st' →
    typed_bus_ok st'.
Proof.
  induction cs as [|c cs IH]; intros st st' Hok; simpl.
  - by intros [= <-].
  - pose proof (typed_run_op_ok set_order body fuel c st Hok) as Hc.
    destruct (TypedEventBus.run_op _ _ _ _ _) as [st1|x st1|]; [| |done];
      by apply IH.
Qed.
End Typed.

(** X12.  After any sequence of [register], [unregister] and [emit] calls
    on a new typed bus, whatever the handlers do, an event name is a key of
    the registry exactly when some handler is registered for it, and the
    attribute [event_handlers] is still the empty dict of [__init__]: no
    method of the class writes it. *)
Theorem typed_bus_invariants {payload : Type}
    (set_order : gset hid → list hid)
    (body : hid → string → payload → prog payload)
    (fuel : nat) (cs : list (op payload)) (st : state payload) :
  TypedEventBus.run_ops set_order body fuel cs TypedEventBus.init = Some st →
  (∀ e, is_Some (registry st !! e) ↔ handlers_of st e ≠ ∅)
  ∧ event_handlers st = Some ∅.
Proof.
  intros Hrun.
  destruct (typed_run_ops_ok set_order body fuel cs TypedEventBus.init st)
    as [Hinv Heh]; [|exact Hrun|].
  - split; [|done]. intros e o s. simpl. by rewrite lookup_empty.
  - split; [by apply key_iff_nonempty|done].
Qed.


(** * The program of [src/main.py] *)

Section Program.
Open Scope string_scope.
Variable set_order : gset hid → list hid.
Hypothesis set_order_perm : ∀ s, set_order s ≡ₚ elements s.
Implicit Types (st : state Main.value) (l : list (obs Main.value)).

Lemma set_order_singleton (h : hid) : set_order {[h]} = [h].
Proof using set_order_perm.
  apply Permutation_singleton_r. by rewrite set_order_perm, elements_singleton.
Qed.

Lemma printed_app l1 l2 :
  Main.printed (l1 ++ l2) = (Main.printed l1 ++ Main.printed l2)%list.
Proof.
  induction l1 as [|[h [d|e d]|c|h] l1 IH]; simpl; try done.
  case_decide; simpl; by rewrite IH.
Qed.

Lemma counter_app l1 l2 s :
  Main.counter (l1 ++ l2) s = Main.counter l1 s + Main.counter l2 s.
Proof.
  induction l1 as [|[h [[s'|c']|e d]|c|h] l1 IH]; simpl; try done.
  rewrite IH. lia.
Qed.

Lemma wired_add_logs l st : Main.wired st → Main.wired (add_logs l st).
Proof. done. Qed.

(** The log event: its handler prints and returns. *)
Lemma emit_log_event fuel d st :
  Main.wired st →
  UntypedEventBus.emit set_order Main.body (S fuel) "log_event" d st
  = Ok (add_logs [Invoked Demo.log_event_handler (Args1 d);
                  Returned Demo.log_event_handler] st).
Proof using set_order_perm.
  intros (_ & [o Hlog] & _). simpl. rewrite Hlog.
  unfold UntypedEventBus.call_handler.
  rewrite (for_each_returning set_order _ _ _ (Args1 d) (fun g => Main.body g d)
             "log_event" o _ st Hlog).
  - by rewrite set_order_singleton.
  - rewrite set_order_singleton. by intros g ->%list_elem_of_singleton.
Qed.

(** An event whose one handler passes a log event on. *)
Lemma emit_forwarded fuel e h d d' st o :
  Main.wired st →
  registry st !! e = Some (o, {[h]}) →
  Main.body h d = Bus (CEmit "log_event" d') (reraise Done) →
  UntypedEventBus.emit set_order Main.body (S (S fuel)) e d st
  = Ok (add_logs [Invoked h (Args1 d); Called (CEmit "log_event" d');
                  Invoked Demo.log_event_handler (Args1 d');
                  Returned Demo.log_event_handler; Returned h] st).
Proof using set_order_perm.
  intros Hwired He Hbody.
  change (UntypedEventBus.emit set_order Main.body (S (S fuel)) e d st)
    with (match registry st !! e with
          | None => Ok st
          | Some (o, s) =>
              for_each set_order
                (UntypedEventBus.call_handler Main.body
                   (UntypedEventBus.emit set_order Main.body (S fuel)) d)
                e o (size s) 0 (length (set_order s)) st
          end).
  rewrite He.
  rewrite (untyped_loop_around set_order Main.body _ d e o {[h]} [] h [] st He
             (set_order_singleton h)) by (by intros g ?%elem_of_nil).
  cbn [calls_and_returns flat_map length]. rewrite add_logs_nil.
  unfold seq. rewrite (call_handler_one_call Main.body _ d h _ _ Hbody).
  unfold do_call. rewrite emit_log_event by done.
  rewrite (for_each_end set_order _ e o {[h]}) by done.
  unfold add_logs, add_log. simpl. by rewrite <- !(assoc_L (++)).
Qed.

Lemma emit_api_call fuel d st :
  Main.wired st →
  UntypedEventBus.emit set_order Main.body (S (S fuel)) "api_call" d st
  = Ok (add_logs [Invoked Demo.api_call_handler (Args1 d);
                  Called (CEmit "log_event" d);
                  Invoked Demo.log_event_handler (Args1 d);
                  Returned Demo.log_event_handler;
                  Returned Demo.api_call_handler] st).
Proof using set_order_perm.
  intros Hwired. pose proof Hwired as (Hs & Hl & [o Ha]).
  by apply (emit_forwarded fuel "api_call" _ d d st o).
Qed.

Lemma emit_security_event fuel s st :
  Main.wired st →
  UntypedEventBus.emit set_order Main.body (S (S fuel)) "security_event"
    (Main.Str s) st
  = Ok (add_logs
          [Invoked Demo.security_event_handler (Args1 (Main.Str s));
           Called (CEmit "log_event" (Main.Str ("security event occurred: " ++ s)));
           Invoked Demo.log_event_handler
             (Args1 (Main.Str ("security event occurred: " ++ s)));
           Returned Demo.log_event_handler;
           Returned Demo.security_event_handler] st).
Proof using set_order_perm.
  intros Hwired. pose proof Hwired as ([o Hs] & Hl & Ha).
  by apply (emit_forwarded fuel "security_event" _ (Main.Str s) _ st o).
Qed.

(** One call of a method of the client. *)
Lemma call_effects fuel m st :
  Main.wired st →
  ∃ l,
    Main.call (UntypedEventBus.emit set_order Main.body (S (S fuel))) m st
    = Ok (add_logs l st)
    ∧ Main.printed l = Main.lines m
    ∧ ∀ s, Main.counter l s
           = if decide (m ≠ Main.GET ∧ s = Main.name m) then 1 else 0.
Proof using set_order_perm.
  intros Hwired.
  destruct m; unfold Main.call, API.get, API.put, API.post, API.delete,
    API.patch, API.option, seq;
    rewrite emit_api_call by done;
    try rewrite emit_security_event by done;
    eexists; (split; [by unfold add_logs; simpl; rewrite <- ?(assoc_L (++))|]);
    (split; [done|]); intros s; simpl;
    repeat case_decide; naive_solver.
Qed.

(** The rounds of the loop. *)
Lemma loop_effects fuel picks st :
  Main.wired st →
  ∃ l,
    Main.loop (UntypedEventBus.emit set_order Main.body (S (S fuel))) picks st
    = Ok (add_logs l st)
    ∧ Main.printed l = flat_map Main.lines picks
    ∧ ∀ s, Main.counter l s
           = length (filter (fun m => m ≠ Main.GET ∧ s = Main.name m) picks).
Proof using set_order_perm.
  revert st. induction picks as [|m picks IH]; intros st Hwired.
  - exists []. by rewrite add_logs_nil.
  - destruct (call_effects fuel m st Hwired) as (l1 & Hcall & Hp1 & Hc1).
    destruct (IH (add_logs l1 st) (wired_add_logs l1 st Hwired))
      as (l2 & Hloop & Hp2 & Hc2).
    exists (l1 ++ l2)%list. split_and!.
    + cbn [Main.loop]. unfold seq. rewrite Hcall, Hloop.
      unfold add_logs. simpl. by rewrite (assoc_L (++)).
    + by rewrite printed_app, Hp1, Hp2.
    + intros s. rewrite counter_app, Hc1, Hc2, filter_cons.
      repeat case_decide; simpl; first [lia|tauto].
Qed.

Lemma setup_wired :
  ∃ st, Main.setup UntypedEventBus.init = Ok st ∧ Main.wired st ∧ log st = [].
Proof.
  eexists. split; [vm_compute; reflexivity|]. split; [|done].
  split_and!; eexists; vm_compute; reflexivity.
Qed.

Lemma chosen_filter (m : Main.method) picks :
  m ≠ Main.GET →
  length (filter (fun m' => m' ≠ Main.GET ∧ Main.name m = Main.name m') picks)
  = Main.chosen m picks.
Proof.
  intros Hm. unfold Main.chosen. induction picks as [|m' picks IH]; [done|].
  rewrite !filter_cons.
  destruct (decide (m' = m)) as [->|Hne].
  - rewrite decide_True by done. simpl. by rewrite IH.
  - rewrite decide_False; [done|]. intros [_ Hname]. apply Hne.
    by destruct m, m'.
Qed.
End Program.

(** X13.  In a bus wired as [main] wires it, every method of the client
    returns and leaves the registry as it was; the log handler has printed
    the data of the API call and, for every method but [get], the line of the
    security event after it; and the counter has one more under the name of
    the method, for every method but [get], and is otherwise what it was. *)
Theorem api_method_effects
    (set_order : gset hid → list hid) (fuel : nat)
    (m : Main.method) (st : state Main.value) :
  (∀ s, set_order s ≡ₚ elements s) →
  Main.wired st →
  ∃ st',
    Main.call (UntypedEventBus.emit set_order Main.body (S (S fuel))) m st = Ok st'
    ∧ registry st' = registry st
    ∧ Main.printed (log st') = Main.printed (log st) ++ Main.lines m
    ∧ ∀ s, Main.counter (log st') s
           = Main.counter (log st) s
             + if decide (m ≠ Main.GET ∧ s = Main.name m) then 1 else 0.
Proof.
  intros Hperm Hwired.
  destruct (call_effects set_order Hperm fuel m st Hwired) as (l & Hcall & Hp & Hc).
  exists (add_logs l st). split_and!; [done|done| |].
  - simpl. by rewrite printed_app, Hp.
  - intros s. simpl. by rewrite counter_app, Hc.
Qed.

(** X14.  [main], whatever the loop chooses round after round, returns; the
    three registrations stand at the end; the log handler has printed, round
    by round, the lines of the method chosen, and then the counter; and the
    counter printed holds, under the name of each method but [get], the
    number of rounds that chose the method, and 0 under every other key. *)
Theorem main_counts_security_events
    (set_order : gset hid → list hid) (fuel : nat) (picks : list Main.method) :
  (∀ s, set_order s ≡ₚ elements s) →
  ∃ st' c,
    Main.main set_order (S (S fuel)) picks = Ok st'
    ∧ Main.wired st'
    ∧ Main.printed (log st') = flat_map Main.lines picks ++ [Main.Counter c]
    ∧ (∀ m, m ≠ Main.GET → c (Main.name m) = Main.chosen m picks)
    ∧ (∀ s, (∀ m, m ≠ Main.GET → s ≠ Main.name m) → c s = 0).
Proof.
  intros Hperm. unfold Main.main.
  destruct setup_wired as (st0 & Hsetup & Hwired & Hlog0).
  unfold seq at 1. rewrite Hsetup.
  destruct (loop_effects set_order Hperm fuel picks st0 Hwired)
    as (l & Hloop & Hp & Hc).
  unfold seq. rewrite Hloop.
  rewrite (emit_log_event set_order Hperm) by done.
  eexists. exists (Main.counter (log (add_logs l st0))).
  split_and!; [done|done| | |].
  - simpl. rewrite Hlog0. simpl.
    by rewrite printed_app, Hp.
  - intros m Hm. simpl. rewrite Hlog0. simpl.
    rewrite Hc. by apply chosen_filter.
  - intros s Hs. simpl. rewrite Hlog0. simpl. rewrite Hc.
    assert (∀ ps, filter (fun m => m ≠ Main.GET ∧ s = Main.name m) ps = [])
      as Hnone.
    { induction ps as [|m ps IH]; [done|].
      rewrite filter_cons, decide_False; [done|].
      intros [Hm ->]. by apply (Hs m). }
    by rewrite Hnone.
Qed.

(** * The further statements at work *)

Section MoreWitnesses.
Open Scope string_scope.

Lemma register_unregister_restores_witness :
  7%positive ∉ handlers_of Demo.bus "log_event"
  ∧ ∃ st',
      seq (UntypedEventBus.register "log_event" 7%positive)
        (UntypedEventBus.unregister "log_event" 7%positive) Demo.bus = Ok st'
      ∧ ∀ e', handlers_of st' e' = handlers_of Demo.bus e'.
Proof.
  assert (7%positive ∉ handlers_of Demo.bus "log_event") as H
    by (apply (bool_decide_unpack _); vm_compute; exact I).
  split; [exact H|].
  exact (register_unregister_restores Demo.bus "log_event" 7%positive H).
Defined.

Lemma unregister_register_restores_witness :
  Demo.log_event_handler ∈ handlers_of Demo.bus "log_event"
  ∧ ∃ st',
      seq (UntypedEventBus.unregister "log_event" Demo.log_event_handler)
        (UntypedEventBus.register "log_event" Demo.log_event_handler) Demo.bus
      = Ok st'
      ∧ ∀ e', handlers_of st' e' = handlers_of Demo.bus e'.
Proof.
  assert (Demo.log_event_handler ∈ handlers_of Demo.bus "log_event") as H
    by (apply (bool_decide_unpack _); vm_compute; exact I).
  split; [exact H|].
  exact (unregister_register_restores Demo.bus "log_event" Demo.log_event_handler H).
Defined.

Lemma unregister_twice_raises_witness :
  let st' := set_registry (delete "log_event" (registry Demo.bus)) Demo.bus in
  UntypedEventBus.unregister "log_event" Demo.log_event_handler Demo.bus = Ok st'
  ∧ UntypedEventBus.unregister "log_event" Demo.log_event_handler st'
    = Exn KeyError st'.
Proof.
  intros st'.
  assert (UntypedEventBus.unregister "log_event" Demo.log_event_handler Demo.bus
          = Ok st') as H by (vm_compute; reflexivity).
  split; [exact H|].
  exact (proj1 (unregister_twice_raises Demo.bus st' "log_event"
                  Demo.log_event_handler) H).
Defined.

Lemma emit_calls_each_registered_once_witness :
  (∀ g, g ∈ handlers_of Demo.bus "log_event" → Demo.body g "x" = Done)
  ∧ ∃ l,
      UntypedEventBus.emit elements Demo.body 1 "log_event" "x" Demo.bus
      = Ok (add_logs l Demo.bus)
      ∧ (∀ g, calls_of g l
              = if decide (g ∈ handlers_of Demo.bus "log_event") then 1 else 0)
      ∧ ∀ g a, Invoked g a ∈ l → a = Args1 "x".
Proof.
  assert (∀ g, g ∈ handlers_of Demo.bus "log_event" → Demo.body g "x" = Done) as H.
  { assert (handlers_of Demo.bus "log_event" = {[Demo.log_event_handler]}) as ->
      by (vm_compute; reflexivity).
    intros g Hg. apply elem_of_singleton in Hg. subst g. reflexivity. }
  split; [exact H|].
  exact (proj1 (emit_calls_each_registered_once elements Demo.body Demo.typed_body
                  0 Demo.bus "log_event" "x" elements_order) H).
Defined.

Lemma unregistered_handler_not_called_witness :
  let st' :=
    set_registry
      (<["evt" := (1%positive, {[2%positive; 4%positive; 6%positive]}
                                 ∖ {[Demo.failing_handler]})]>
         (registry Demo.failing_bus))
      Demo.failing_bus in
  UntypedEventBus.unregister "evt" Demo.failing_handler Demo.failing_bus = Ok st'
  ∧ ∃ l, UntypedEventBus.emit elements Demo.failing_body 1 "evt" "x" st'
           = Ok (add_logs l st')
         ∧ calls_of Demo.failing_handler l = 0
         ∧ ∀ g, g ∈ handlers_of Demo.failing_bus "evt" →
                g ≠ Demo.failing_handler → calls_of g l = 1.
Proof.
  intros st'.
  assert (UntypedEventBus.unregister "evt" Demo.failing_handler Demo.failing_bus
          = Ok st') as H by (vm_compute; reflexivity).
  split; [exact H|].
  apply (unregistered_handler_not_called elements Demo.failing_body 0
           Demo.failing_bus st' "evt" Demo.failing_handler "x" elements_order H).
  intros g _ Hne. unfold Demo.failing_body. by rewrite decide_False.
Defined.

Lemma self_unregistering_handler_aborts_witness :
  let body (h : hid) (d : string) : prog string :=
    if decide (h = 4%positive)
    then Bus (CUnregister "evt" 4%positive) (reraise Done) else Done in
  ∃ st',
    UntypedEventBus.emit elements body 1 "evt" "x" Demo.failing_bus
    = Exn RuntimeError st'
    ∧ handlers_of st' "evt"
      = {[2%positive; 4%positive; 6%positive]} ∖ {[4%positive]}
    ∧ (∀ e', e' ≠ "evt" → registry st' !! e' = registry Demo.failing_bus !! e')
    ∧ log st'
      = (log Demo.failing_bus ++ calls_and_returns (Args1 "x") [6%positive]
           ++ [Invoked 4%positive (Args1 "x");
               Called (CUnregister "evt" 4%positive);
               Returned 4%positive])%list.
Proof.
  intros body.
  apply (self_unregistering_handler_aborts elements body 0 Demo.failing_bus
           "evt" "x" 1%positive {[2%positive; 4%positive; 6%positive]}
           [6%positive] [2%positive] 4%positive elements_order).
  - vm_compute. reflexivity.
  - vm_compute. reflexivity.
  - intros g Hg. apply list_elem_of_singleton in Hg. subst g. reflexivity.
  - reflexivity.
Defined.

Lemma registering_handler_aborts_witness :
  let body (h : hid) (d : string) : prog string :=
    if decide (h = 4%positive)
    then Bus (CRegister "evt" 8%positive) (reraise Done) else Done in
  ∃ st',
    UntypedEventBus.emit elements body 1 "evt" "x" Demo.failing_bus
    = Exn RuntimeError st'
    ∧ handlers_of st' "evt"
      = {[8%positive]} ∪ {[2%positive; 4%positive; 6%positive]}
    ∧ (∀ e', e' ≠ "evt" → registry st' !! e' = registry Demo.failing_bus !! e')
    ∧ log st'
      = (log Demo.failing_bus ++ calls_and_returns (Args1 "x") [6%positive]
           ++ [Invoked 4%positive (Args1 "x");
               Called (CRegister "evt" 8%positive);
               Returned 4%positive])%list.
Proof.
  intros body.
  apply (registering_handler_aborts elements body 0 Demo.failing_bus
           "evt" "x" 1%positive {[2%positive; 4%positive; 6%positive]}
           [6%positive] [2%positive] 4%positive 8%positive elements_order).
  - vm_compute. reflexivity.
  - vm_compute. reflexivity.
  - intros g Hg. apply list_elem_of_singleton in Hg. subst g. reflexivity.
  - reflexivity.
  - apply (bool_decide_unpack _). vm_compute. exact I.
Defined.

Lemma registering_for_another_event_witness :
  let body (h : hid) (d : string) : prog string :=
    if decide (h = 4%positive)
    then Bus (CRegister "other" 8%positive) (reraise Done) else Done in
  ∃ st',
    UntypedEventBus.emit elements body 1 "evt" "x" Demo.failing_bus = Ok st'
    ∧ handlers_of st' "other"
      = {[8%positive]} ∪ handlers_of Demo.failing_bus "other"
    ∧ (∀ e', e' ≠ "other" → registry st' !! e' = registry Demo.failing_bus !! e')
    ∧ log st'
      = (log Demo.failing_bus ++ calls_and_returns (Args1 "x") [6%positive]
           ++ [Invoked 4%positive (Args1 "x");
               Called (CRegister "other" 8%positive);
               Returned 4%positive]
           ++ calls_and_returns (Args1 "x") [2%positive])%list.
Proof.
  intros body.
  apply (registering_for_another_event elements body 0 Demo.failing_bus
           "evt" "other" "x" 1%positive {[2%positive; 4%positive; 6%positive]}
           [6%positive] [2%positive] 4%positive 8%positive).
  - vm_compute. reflexivity.
  - vm_compute. reflexivity.
  - intros g Hg. apply elem_of_app in Hg.
    destruct Hg as [Hg|Hg]; apply list_elem_of_singleton in Hg; subst g;
      reflexivity.
  - reflexivity.
  - discriminate.
Defined.

Lemma replaced_handler_not_called_witness :
  ∃ st' l,
    final (UntypedEventBus.emit elements Demo.swapping_body 1 "evt" "x"
             Demo.failing_bus) = Some st'
    ∧ handlers_of st' "evt"
      = {[8%positive]} ∪ ({[2%positive; 4%positive; 6%positive]} ∖ {[2%positive]})
    ∧ log st' = (log Demo.failing_bus ++ l)%list
    ∧ calls_of 2%positive l = 0.
Proof.
  apply (replaced_handler_not_called elements Demo.swapping_body 0 Demo.failing_bus
           "evt" "x" 1%positive {[2%positive; 4%positive; 6%positive]}
           [] [4%positive; 2%positive] Demo.swapping_handler 2%positive 8%positive).
  - exact elements_order.
  - vm_compute. reflexivity.
  - vm_compute. reflexivity.
  - right. left.
  - intros Hin. vm_compute in Hin. discriminate.
  - reflexivity.
  - intros j Hj. unfold Demo.swapping_body.
    destruct (decide (j = Demo.swapping_handler)); [contradiction|reflexivity].
Defined.

Lemma typed_bus_invariants_witness :
  let st :=
    default TypedEventBus.init
      (TypedEventBus.run_ops elements Demo.typed_body 2
         (Demo.registrations ++ Demo.post) TypedEventBus.init) in
  TypedEventBus.run_ops elements Demo.typed_body 2
    (Demo.registrations ++ Demo.post) TypedEventBus.init = Some st
  ∧ (∀ e, is_Some (registry st !! e) ↔ handlers_of st e ≠ ∅)
  ∧ event_handlers st = Some ∅.
Proof.
  intros st.
  assert (TypedEventBus.run_ops elements Demo.typed_body 2
            (Demo.registrations ++ Demo.post) TypedEventBus.init = Some st) as H
    by (vm_compute; reflexivity).
  split; [exact H|].
  exact (typed_bus_invariants elements Demo.typed_body 2
           (Demo.registrations ++ Demo.post) st H).
Defined.

Lemma main_bus_wired :
  Main.wired (match Main.setup UntypedEventBus.init with
              | Ok st => st
              | _ => UntypedEventBus.init
              end).
Proof. split_and!; eexists; vm_compute; reflexivity. Defined.

Lemma api_method_effects_witness :
  let st := match Main.setup UntypedEventBus.init with
            | Ok st => st
            | _ => UntypedEventBus.init
            end in
  Main.wired st
  ∧ ∃ st',
      Main.call (UntypedEventBus.emit elements Main.body 2) Main.POST st = Ok st'
      ∧ registry st' = registry st
      ∧ Main.printed (log st')
        = (Main.printed (log st) ++ Main.lines Main.POST)%list
      ∧ ∀ s, Main.counter (log st') s
             = Main.counter (log st) s
               + if decide (Main.POST ≠ Main.GET ∧ s = Main.name Main.POST)
                 then 1 else 0.
Proof.
  intros st. split; [exact main_bus_wired|].
  exact (api_method_effects elements 0 Main.POST st elements_order main_bus_wired).
Defined.

Lemma main_counts_security_events_witness :
  ∃ st' c,
    Main.main elements 2 [Main.GET; Main.POST; Main.PUT; Main.POST] = Ok st'
    ∧ Main.wired st'
    ∧ Main.printed (log st')
      = (flat_map Main.lines [Main.GET; Main.POST; Main.PUT; Main.POST]
           ++ [Main.Counter c])%list
    ∧ (∀ m, m ≠ Main.GET →
            c (Main.name m)
            = Main.chosen m [Main.GET; Main.POST; Main.PUT; Main.POST])
    ∧ (∀ s, (∀ m, m ≠ Main.GET → s ≠ Main.name m) → c s = 0).
Proof.
  exact (main_counts_security_events elements 0
           [Main.GET; Main.POST; Main.PUT; Main.POST] elements_order).
Defined.

(** Two rounds of [main], run: what is printed and what is counted. *)
Example main_two_rounds :
  match Main.main elements 2 [Main.DELETE; Main.GET] with
  | Ok st =>
      (take 3 (Main.printed (log st)),
       Main.counter (log st) "DELETE", Main.counter (log st) "GET")
      = ([ Main.Str "API DELETE call data";
           Main.Str "security event occurred: DELETE";
           Main.Str "API GET call data" ], 1, 0)
  | _ => False
  end.
Proof. vm_compute. reflexivity. Qed.
End MoreWitnesses.
